(** * HTTPHeaderField: RFC 7230 header field validation

    A shallow embedding of
    [src/bun.js/bindings/webcore/HTTPHeaderField.cpp]: the character
    classifiers of namespace [RFC7230], the name validator, the value
    validator (a four-state scanner with a comment depth counter) and
    [HTTPHeaderField::create].

    Strings are lists of UTF-16 code units.  A [StringView] over 8-bit
    storage hands out its characters zero-extended to [char16_t], so one
    representation serves both widths; a code unit is a [Z]. *)

From Stdlib Require Import ZArith Lia Bool List String Ascii.
From stdpp Require Import base tactics option list numbers.
Import ListNotations.

Local Open Scope Z_scope.

(** ** Code units *)

Definition char16_t := Z.
Definition LChar := Z.

(** [static_cast<LChar>(c)]: the low eight bits. *)
Definition static_cast_LChar (c : char16_t) : LChar := c mod 0x100.

(** [size_t] arithmetic wraps modulo 2^64. *)
Definition SIZE_MOD : Z := 2 ^ 64.
Definition wrap_size_t (z : Z) : Z := z mod SIZE_MOD.

(** Literal text for examples: the code units of a (7-bit) string. *)
Definition chr (a : ascii) : char16_t := Z.of_N (N_of_ascii a).
Definition str (s : string) : list char16_t := map chr (list_ascii_of_string s).

Definition DQUOTE : char16_t := 0x22.
Definition BACKSLASH : char16_t := 0x5C.
Definition LPAREN : char16_t := 0x28.
Definition RPAREN : char16_t := 0x29.

(** ** Helpers of the string library (not part of this file's source) *)

(** Modelled from the spec: [isASCIIAlpha] is declared in the string
    library's character-type header; the spec's [tchar] says "ASCII
    letter". *)
Definition isASCIIAlpha (c : Z) : bool :=
  ((0x41 <=? c) && (c <=? 0x5A)) || ((0x61 <=? c) && (c <=? 0x7A)).

(** Modelled from the spec: [isASCIIDigit] is declared in the string
    library's character-type header; the spec's [tchar] says "ASCII
    digit". *)
Definition isASCIIDigit (c : Z) : bool := (0x30 <=? c) && (c <=? 0x39).

(** Modelled from the spec: [isTabOrSpace] is declared in the string
    library; the spec says "horizontal whitespace (space, tab)". *)
Definition isTabOrSpace (c : char16_t) : bool := (c =? 0x20) || (c =? 0x09).

Fixpoint dropWhile {A} (p : A -> bool) (s : list A) : list A :=
  match s with
  | [] => []
  | c :: s' => if p c then dropWhile p s' else s
  end.

(** Modelled from the spec: [StringView::trim] is the string library's
    trimming primitive; the spec says it strips the characters matching
    the predicate "from both ends". *)
Definition trim {A} (p : A -> bool) (s : list A) : list A :=
  rev (dropWhile p (rev (dropWhile p s))).

Module RFC7230.

(** ** Character classifiers *)

(** [isTokenCharacter(LChar)] *)
Definition isTokenCharacter_LChar (c : LChar) : bool :=
  isASCIIAlpha c || isASCIIDigit c
  || (c =? 0x21) (* ! *) || (c =? 0x23) (* # *) || (c =? 0x24) (* $ *)
  || (c =? 0x25) (* % *) || (c =? 0x26) (* & *)
  || (c =? 0x27) (* apostrophe *)
  || (c =? 0x2A) (* asterisk *) || (c =? 0x2B) (* + *) || (c =? 0x2D) (* - *)
  || (c =? 0x2E) (* . *) || (c =? 0x5E) (* ^ *) || (c =? 0x5F) (* _ *)
  || (c =? 0x60) (* grave accent *)
  || (c =? 0x7C) (* | *) || (c =? 0x7E) (* ~ *).

(** [isDelimiter(LChar)] *)
Definition isDelimiter_LChar (c : LChar) : bool :=
  (c =? 0x28) (* left parenthesis *) || (c =? 0x29) (* right parenthesis *)
  || (c =? 0x2C) (* , *)
  || (c =? 0x2F) (* / *) || (c =? 0x3A) (* : *) || (c =? 0x3B) (* ; *)
  || (c =? 0x3C) (* < *) || (c =? 0x3D) (* = *) || (c =? 0x3E) (* > *)
  || (c =? 0x3F) (* ? *) || (c =? 0x40) (* @ *) || (c =? 0x5B) (* [ *)
  || (c =? 0x5C) (* backslash *) || (c =? 0x5D) (* ] *) || (c =? 0x7B) (* { *)
  || (c =? 0x7D) (* } *) || (c =? 0x22) (* double quote *).

(** [isTokenCharacter(char16_t)] *)
Definition isTokenCharacter (c : char16_t) : bool :=
  (c <? 0x80) && isTokenCharacter_LChar (static_cast_LChar c).

(** [isDelimiter(char16_t)] *)
Definition isDelimiter (c : char16_t) : bool :=
  (c <? 0x80) && isDelimiter_LChar (static_cast_LChar c).

Definition isVisibleCharacter (c : char16_t) : bool :=
  isTokenCharacter c || isDelimiter c.

Definition isWhitespace (c : char16_t) : bool :=
  (c =? 0x20) || (c =? 0x09).

Definition isInRange (min max : Z) (c : char16_t) : bool :=
  (min <=? c) && (c <=? max).

Definition isOBSText (c : char16_t) : bool := isInRange 0x80 0xFF c.

Definition isQuotedTextCharacter (c : char16_t) : bool :=
  isWhitespace c
  || (c =? 0x21)
  || isInRange 0x23 0x5B c
  || isInRange 0x5D 0x7E c
  || isOBSText c.

Definition isQuotedPairSecondOctet (c : char16_t) : bool :=
  isWhitespace c
  || isVisibleCharacter c
  || isOBSText c.

Definition isCommentText (c : char16_t) : bool :=
  isWhitespace c
  || isInRange 0x21 0x27 c
  || isInRange 0x2A 0x5B c
  || isInRange 0x5D 0x7E c
  || isOBSText c.

(** ** Name validator *)

(** The [for] loop of [isValidName]: every index from the current one to
    the end is visited in order, and the first failing character returns
    [false]. *)
Fixpoint isValidName_loop (name : list char16_t) : bool :=
  match name with
  | [] => true
  | c :: name' =>
      if negb (isTokenCharacter c) then false else isValidName_loop name'
  end.

Definition isValidName (name : list char16_t) : bool :=
  if (length name =? 0)%nat then false else isValidName_loop name.

(** ** Value validator *)

(** Outcomes of code that indexes into its input.  [OutOfRange i] records
    an evaluation of [value[i]] with [i] not below [value.length()];
    [OutOfFuel] is the loop model running out of iterations. *)
Inductive result (A : Type) : Type :=
| Ok (a : A)
| OutOfRange (i : nat)
| OutOfFuel.
Arguments Ok {A} a.
Arguments OutOfRange {A} i.
Arguments OutOfFuel {A}.

Definition bind {A B} (r : result A) (k : A -> result B) : result B :=
  match r with
  | Ok a => k a
  | OutOfRange i => OutOfRange i
  | OutOfFuel => OutOfFuel
  end.

Notation "'let*' x ':=' e 'in' k" := (bind e (fun x => k))
  (at level 10, x name, e at level 100, k at level 200).

(** [value[i]] *)
Definition read (value : list char16_t) (i : nat) : result char16_t :=
  match value !! i with
  | Some c => Ok c
  | None => OutOfRange i
  end.

Inductive State : Type := OptionalWhitespace | Token | QuotedString | Comment.

(** The local variables of [isValidValue] that live across iterations. *)
Record locals : Type := Locals {
  state : State;
  commentDepth : Z;
  hadNonWhitespace : bool
}.

Definition initial : locals :=
  {| state := OptionalWhitespace; commentDepth := 0; hadNonWhitespace := false |}.

(** The locals inside a first token, and after a first segment. *)
Definition after_token : locals :=
  {| state := Token; commentDepth := 0; hadNonWhitespace := true |}.

Definition between_segments : locals :=
  {| state := OptionalWhitespace; commentDepth := 0; hadNonWhitespace := true |}.

Definition set_state (s : State) (l : locals) : locals :=
  {| state := s; commentDepth := commentDepth l;
     hadNonWhitespace := hadNonWhitespace l |}.

Definition set_commentDepth (d : Z) (l : locals) : locals :=
  {| state := state l; commentDepth := d;
     hadNonWhitespace := hadNonWhitespace l |}.

Definition set_hadNonWhitespace (b : bool) (l : locals) : locals :=
  {| state := state l; commentDepth := commentDepth l;
     hadNonWhitespace := b |}.

(** How one pass through the loop body ends: [continue] with the index and
    locals it leaves behind, or [return]. *)
Inductive control : Type :=
| Continue (i : nat) (l : locals)
| Return (b : bool).

(** The backslash branch, written out twice in the source (in
    [QuotedString] and in [Comment]):
    [++i; if (i == value.length()) return false;
     if (!isQuotedPairSecondOctet(value[i])) return false; continue;] *)
Definition quotedPair (value : list char16_t) (i : nat) (l : locals)
  : result control :=
  let i := S i in
  if (i =? length value)%nat then Ok (Return false)
  else
    let* c2 := read value i in
    if negb (isQuotedPairSecondOctet c2) then Ok (Return false)
    else Ok (Continue i l).

(** The body of the [for] loop at index [i]. *)
Definition body (value : list char16_t) (i : nat) (l : locals)
  : result control :=
  let* c := read value i in
  match state l with
  | OptionalWhitespace =>
      if isWhitespace c then Ok (Continue i l)
      else
        let l := set_hadNonWhitespace true l in
        if isTokenCharacter c then Ok (Continue i (set_state Token l))
        else if c =? DQUOTE then Ok (Continue i (set_state QuotedString l))
        else if c =? LPAREN then
          let l := set_commentDepth (wrap_size_t (commentDepth l + 1)) l in
          Ok (Continue i (set_state Comment l))
        else Ok (Return false)
  | Token =>
      if isTokenCharacter c then Ok (Continue i l)
      else Ok (Continue i (set_state OptionalWhitespace l))
  | QuotedString =>
      if c =? DQUOTE then Ok (Continue i (set_state OptionalWhitespace l))
      else if c =? BACKSLASH then quotedPair value i l
      else if negb (isQuotedTextCharacter c) then Ok (Return false)
      else Ok (Continue i l)
  | Comment =>
      if c =? LPAREN then
        Ok (Continue i (set_commentDepth (wrap_size_t (commentDepth l + 1)) l))
      else if c =? RPAREN then
        let l := set_commentDepth (wrap_size_t (commentDepth l - 1)) l in
        if commentDepth l =? 0
        then Ok (Continue i (set_state OptionalWhitespace l))
        else Ok (Continue i l)
      else if c =? BACKSLASH then quotedPair value i l
      else if negb (isCommentText c) then Ok (Return false)
      else Ok (Continue i l)
  end.

(** How the [for] loop ends: a [return] from inside the body, or the loop
    condition failing, with the locals as they then stand. *)
Inductive loop_exit : Type :=
| Returned (b : bool)
| Finished (l : locals).

(** [for (size_t i = 0; i < value.length(); ++i) body].  The index stays
    at or below [value.length()] ([reachable_index]), so its arithmetic
    never wraps and it is kept as a [nat]; [commentDepth] is kept with
    its wrap-around. *)
Fixpoint loop (fuel : nat) (value : list char16_t) (i : nat) (l : locals)
  : result loop_exit :=
  match fuel with
  | O => OutOfFuel
  | S fuel' =>
      if (i <? length value)%nat then
        let* r := body value i l in
        match r with
        | Continue i' l' => loop fuel' value (S i') l'
        | Return b => Ok (Returned b)
        end
      else Ok (Finished l)
  end.

(** The [switch] after the loop. *)
Definition final (l : locals) : bool :=
  match state l with
  | OptionalWhitespace | Token => hadNonWhitespace l
  | QuotedString | Comment => false
  end.

Definition isValidValue (value : list char16_t) : result bool :=
  let* e := loop (S (length value)) value 0 initial in
  match e with
  | Returned b => Ok b
  | Finished l => Ok (final l)
  end.

(** ** The scan as a function of the unread suffix

    The same scanner, by recursion on the characters that remain: the
    functional reading of the loop, against which [loop] is checked
    ([loop_scan] below).  A backslash takes the following character with
    it. *)
Fixpoint scan (l : locals) (rest : list char16_t) : loop_exit :=
  match rest with
  | [] => Finished l
  | c :: rest' =>
      match state l with
      | OptionalWhitespace =>
          if isWhitespace c then scan l rest'
          else
            let l := set_hadNonWhitespace true l in
            if isTokenCharacter c then scan (set_state Token l) rest'
            else if c =? DQUOTE then scan (set_state QuotedString l) rest'
            else if c =? LPAREN then
              scan (set_state Comment
                      (set_commentDepth (wrap_size_t (commentDepth l + 1)) l))
                   rest'
            else Returned false
      | Token =>
          if isTokenCharacter c then scan l rest'
          else scan (set_state OptionalWhitespace l) rest'
      | QuotedString =>
          if c =? DQUOTE then scan (set_state OptionalWhitespace l) rest'
          else if c =? BACKSLASH then
            match rest' with
            | [] => Returned false
            | c2 :: rest'' =>
                if negb (isQuotedPairSecondOctet c2) then Returned false
                else scan l rest''
            end
          else if negb (isQuotedTextCharacter c) then Returned false
          else scan l rest'
      | Comment =>
          if c =? LPAREN then
            scan (set_commentDepth (wrap_size_t (commentDepth l + 1)) l) rest'
          else if c =? RPAREN then
            let l := set_commentDepth (wrap_size_t (commentDepth l - 1)) l in
            if commentDepth l =? 0
            then scan (set_state OptionalWhitespace l) rest'
            else scan l rest'
          else if c =? BACKSLASH then
            match rest' with
            | [] => Returned false
            | c2 :: rest'' =>
                if negb (isQuotedPairSecondOctet c2) then Returned false
                else scan l rest''
            end
          else if negb (isCommentText c) then Returned false
          else scan l rest'
      end
  end.

Definition exit_value (e : loop_exit) : bool :=
  match e with
  | Returned b => b
  | Finished l => final l
  end.

(** What the depth counter stands for at index [i]: it is positive
    exactly in [Comment], and never exceeds the number of characters
    already passed. *)
Definition depth_tracks_state (i : nat) (l : locals) : Prop :=
  (0 < commentDepth l <-> state l = Comment)
  /\ 0 <= commentDepth l <= Z.of_nat i.

(** ** Reachable configurations

    [reachable value i l]: the loop condition is evaluated with index [i]
    and locals [l] in the run of [isValidValue value]. *)
Inductive reachable (value : list char16_t) : nat -> locals -> Prop :=
| reachable_initial : reachable value 0 initial
| reachable_continue i l i' l' :
    reachable value i l ->
    (i < length value)%nat ->
    body value i l = Ok (Continue i' l') ->
    reachable value (S i') l'.

(** ** Segment contents

    The character sequences the [QuotedString] and [Comment] branches
    pass over without leaving their state: unescaped text, backslash
    pairs and, in a comment, nested comments. *)
Inductive quoted_content : list char16_t -> Prop :=
| quoted_nil : quoted_content []
| quoted_text c body :
    isQuotedTextCharacter c = true ->
    quoted_content body ->
    quoted_content (c :: body)
| quoted_pair c body :
    isQuotedPairSecondOctet c = true ->
    quoted_content body ->
    quoted_content (BACKSLASH :: c :: body).

Inductive comment_content : list char16_t -> Prop :=
| comment_nil : comment_content []
| comment_text c body :
    isCommentText c = true ->
    comment_content body ->
    comment_content (c :: body)
| comment_pair c body :
    isQuotedPairSecondOctet c = true ->
    comment_content body ->
    comment_content (BACKSLASH :: c :: body)
| comment_nested inner body :
    comment_content inner ->
    comment_content body ->
    comment_content (LPAREN :: inner ++ RPAREN :: body).

End RFC7230.

(** ** The field constructor *)

Record HTTPHeaderField : Type := {
  name : list char16_t;
  value : list char16_t
}.

(** [HTTPHeaderField::create].  [||] evaluates its right operand only
    when the name is valid. *)
Definition create (unparsedName unparsedValue : list char16_t)
  : RFC7230.result (option HTTPHeaderField) :=
  let trimmedName := trim isTabOrSpace unparsedName in
  let trimmedValue := trim isTabOrSpace unparsedValue in
  if negb (RFC7230.isValidName trimmedName) then RFC7230.Ok None
  else
    RFC7230.bind (RFC7230.isValidValue trimmedValue) (fun valid =>
    if negb valid then RFC7230.Ok None
    else
      let name :=
        if (length trimmedName =? length unparsedName)%nat
        then unparsedName else trimmedName in
      let value :=
        if (length trimmedValue =? length unparsedValue)%nat
        then unparsedValue else trimmedValue in
      RFC7230.Ok (Some {| name := name; value := value |})).

(** *** The arguments after the call

    [create] takes its two strings by rvalue reference.  The conditional
    expressions that build the stored name and value move-construct from
    the argument when trimming removed nothing ([WTFMove(unparsedName)],
    [WTFMove(unparsedValue)]) and copy the trimmed view otherwise.  An
    argument that was moved from no longer holds its characters. *)
Inductive argument_state : Type :=
| Holds (s : list char16_t)
| MovedFrom.

Record create_outcome : Type := {
  returned : option HTTPHeaderField;
  unparsedName_after : argument_state;
  unparsedValue_after : argument_state
}.

(** [HTTPHeaderField::create] with what it leaves in its two arguments. *)
Definition create_call (unparsedName unparsedValue : list char16_t)
  : RFC7230.result create_outcome :=
  let trimmedName := trim isTabOrSpace unparsedName in
  let trimmedValue := trim isTabOrSpace unparsedValue in
  let untouched :=
    {| returned := None;
       unparsedName_after := Holds unparsedName;
       unparsedValue_after := Holds unparsedValue |} in
  if negb (RFC7230.isValidName trimmedName) then RFC7230.Ok untouched
  else
    RFC7230.bind (RFC7230.isValidValue trimmedValue) (fun valid =>
    if negb valid then RFC7230.Ok untouched
    else
      let '(name, nameAfter) :=
        if (length trimmedName =? length unparsedName)%nat
        then (unparsedName, MovedFrom)
        else (trimmedName, Holds unparsedName) in
      let '(value, valueAfter) :=
        if (length trimmedValue =? length unparsedValue)%nat
        then (unparsedValue, MovedFrom)
        else (trimmedValue, Holds unparsedValue) in
      RFC7230.Ok
        {| returned := Some {| name := name; value := value |};
           unparsedName_after := nameAfter;
           unparsedValue_after := valueAfter |}).


(** * Properties *)

Import RFC7230.

(** ** Classifiers *)

Lemma static_cast_LChar_ascii (c : char16_t) :
  0 <= c < 0x80 -> static_cast_LChar c = c.
Proof. intros H. unfold static_cast_LChar. apply Z.mod_small. lia. Qed.

Ltac bool_arith :=
  repeat match goal with
  | H : _ && _ = true |- _ => apply andb_prop in H; destruct H
  | H : _ || _ = true |- _ => apply orb_prop in H; destruct H
  | H : _ || _ = false |- _ => apply orb_false_elim in H; destruct H
  | H : negb _ = true |- _ => apply negb_true_iff in H
  | H : negb _ = false |- _ => apply negb_false_iff in H
  | H : (_ =? _) = true |- _ => apply Z.eqb_eq in H
  | H : (_ =? _) = false |- _ => apply Z.eqb_neq in H
  | H : (_ <? _) = true |- _ => apply Z.ltb_lt in H
  | H : (_ <? _) = false |- _ => apply Z.ltb_ge in H
  | H : (_ <=? _) = true |- _ => apply Z.leb_le in H
  | H : (_ <=? _) = false |- _ => apply Z.leb_gt in H
  end.

(** Decide a closed boolean combination of integer comparisons on [c]
    from linear facts in the context. *)
Ltac decide_cmp :=
  repeat match goal with
  | |- context [?a =? ?b] =>
      let E := fresh "E" in destruct (Z.eqb_spec a b) as [E|E]
  | |- context [?a <? ?b] =>
      let E := fresh "E" in destruct (Z.ltb_spec a b) as [E|E]
  | |- context [?a <=? ?b] =>
      let E := fresh "E" in destruct (Z.leb_spec a b) as [E|E]
  end; simpl; try reflexivity; try lia.

Lemma isTokenCharacter_LChar_range (c : Z) :
  isTokenCharacter_LChar c = true -> 0x21 <= c <= 0x7E.
Proof.
  unfold isTokenCharacter_LChar, isASCIIAlpha, isASCIIDigit.
  intros H. bool_arith; lia.
Qed.

Lemma isDelimiter_LChar_range (c : Z) :
  isDelimiter_LChar c = true -> 0x22 <= c <= 0x7D.
Proof.
  unfold isDelimiter_LChar. intros H. bool_arith; lia.
Qed.

(** A code unit from 0x100 up belongs to no grammar class. *)
Lemma wide_unit_no_class (c : char16_t) :
  0x100 <= c ->
  isTokenCharacter c = false /\ isDelimiter c = false
  /\ isWhitespace c = false /\ isOBSText c = false
  /\ isQuotedTextCharacter c = false
  /\ isQuotedPairSecondOctet c = false
  /\ isCommentText c = false.
Proof.
  intros H.
  assert (Ht : isTokenCharacter c = false).
  { unfold isTokenCharacter. destruct (Z.ltb_spec c 0x80); [lia | reflexivity]. }
  assert (Hd : isDelimiter c = false).
  { unfold isDelimiter. destruct (Z.ltb_spec c 0x80); [lia | reflexivity]. }
  unfold isQuotedTextCharacter, isQuotedPairSecondOctet, isCommentText,
    isVisibleCharacter.
  rewrite Ht, Hd.
  unfold isOBSText, isInRange, isWhitespace.
  repeat split; decide_cmp.
Qed.

(** ** The loop and the scan agree *)

Lemma read_lookup (value : list char16_t) i c :
  value !! i = Some c -> read value i = Ok c.
Proof. intros H. unfold read. rewrite H. reflexivity. Qed.

Lemma quotedPair_scan (value : list char16_t) i l c :
  value !! i = Some c ->
  quotedPair value i l =
    match drop (S i) value with
    | [] => Ok (Return false)
    | c2 :: _ =>
        if negb (isQuotedPairSecondOctet c2) then Ok (Return false)
        else Ok (Continue (S i) l)
    end.
Proof.
  intros Hc. unfold quotedPair.
  assert (Hlt : (i < length value)%nat) by (eapply lookup_lt_Some; eauto).
  destruct (Nat.eqb_spec (S i) (length value)) as [E|E].
  - rewrite drop_ge by lia. reflexivity.
  - destruct (lookup_lt_is_Some_2 value (S i)) as [c2 Hc2]; [lia|].
    rewrite (drop_S _ _ _ Hc2). rewrite (read_lookup _ _ _ Hc2). reflexivity.
Qed.

Lemma loop_scan (fuel : nat) (value : list char16_t) :
  forall i l,
    (i <= length value)%nat ->
    (length value - i < fuel)%nat ->
    loop fuel value i l = Ok (scan l (drop i value)).
Proof.
  induction fuel as [|fuel IH]; intros i l Hi Hfuel; [lia|].
  cbn [loop].
  destruct (Nat.ltb_spec i (length value)) as [Hlt|Hge].
  2:{ rewrite drop_ge by lia. reflexivity. }
  destruct (lookup_lt_is_Some_2 value i Hlt) as [c Hc].
  rewrite (drop_S _ _ _ Hc).
  assert (Hnext : forall l',
    loop fuel value (S i) l' = Ok (scan l' (drop (S i) value))).
  { intros l'. apply IH; lia. }
  assert (Hpair :
    bind (quotedPair value i l)
      (fun r => match r with
                | Continue i' l' => loop fuel value (S i') l'
                | Return b => Ok (Returned b)
                end)
    = Ok match drop (S i) value with
         | [] => Returned false
         | c2 :: rest =>
             if negb (isQuotedPairSecondOctet c2) then Returned false
             else scan l rest
         end).
  { rewrite (quotedPair_scan _ _ _ _ Hc).
    destruct (drop (S i) value) as [|c2 rest] eqn:Hd; [reflexivity|].
    destruct (negb (isQuotedPairSecondOctet c2)); [reflexivity|].
    cbn [bind].
    assert (Hlen : (S i < length value)%nat).
    { destruct (Nat.ltb_spec (S i) (length value)); [done|].
      rewrite drop_ge in Hd by lia. discriminate. }
    rewrite IH by lia.
    destruct (lookup_lt_is_Some_2 value (S i) Hlen) as [c2' Hc2'].
    rewrite (drop_S _ _ _ Hc2') in Hd. injection Hd as _ <-. reflexivity. }
  unfold body. rewrite (read_lookup _ _ _ Hc). cbn [bind scan].
  destruct (state l).
  - repeat (match goal with
            | |- context [if ?b then _ else _] => destruct b
            end; cbn [bind]; rewrite ?Hnext; try reflexivity).
  - repeat (match goal with
            | |- context [if ?b then _ else _] => destruct b
            end; cbn [bind]; rewrite ?Hnext; try reflexivity).
  - destruct (c =? DQUOTE); [cbn [bind]; rewrite Hnext; reflexivity|].
    destruct (c =? BACKSLASH); [exact Hpair|].
    destruct (negb (isQuotedTextCharacter c)); cbn [bind];
      rewrite ?Hnext; reflexivity.
  - destruct (c =? LPAREN); [cbn [bind]; rewrite Hnext; reflexivity|].
    destruct (c =? RPAREN).
    { cbv zeta.
      destruct (commentDepth _ =? 0); cbn [bind]; rewrite Hnext; reflexivity. }
    destruct (c =? BACKSLASH); [exact Hpair|].
    destruct (negb (isCommentText c)); cbn [bind];
      rewrite ?Hnext; reflexivity.
Qed.

(** [isValidValue] always returns: no index is out of range and the loop
    ends within its [length value + 1] evaluations of the condition. *)
Lemma isValidValue_scan (value : list char16_t) :
  isValidValue value = Ok (exit_value (scan initial value)).
Proof.
  unfold isValidValue. rewrite loop_scan by (simpl; lia).
  rewrite drop_0. cbn [bind]. destruct (scan initial value); reflexivity.
Qed.

Lemma loop_from_start (value : list char16_t) :
  loop (S (length value)) value 0 initial = Ok (scan initial value).
Proof. rewrite loop_scan by (simpl; lia). rewrite drop_0. reflexivity. Qed.

(** ** Wide and narrow classifiers *)

(** C10: on the shared domain, code units below 0x100, the [char16_t]
    overloads of [isTokenCharacter] and [isDelimiter] return what the
    [LChar] overloads return; from 0x80 to 0xFF all four return false. *)
Theorem C10_wide_narrow_agree (c : char16_t) :
  0 <= c < 0x100 ->
  isTokenCharacter c = isTokenCharacter_LChar c
  /\ isDelimiter c = isDelimiter_LChar c
  /\ (0x80 <= c ->
      isTokenCharacter c = false /\ isTokenCharacter_LChar c = false
      /\ isDelimiter c = false /\ isDelimiter_LChar c = false).
Proof.
  intros Hc.
  assert (Hhigh : 0x80 <= c ->
    isTokenCharacter_LChar c = false /\ isDelimiter_LChar c = false).
  { intros Hh. split.
    - destruct (isTokenCharacter_LChar c) eqn:E; [|reflexivity].
      apply isTokenCharacter_LChar_range in E. lia.
    - destruct (isDelimiter_LChar c) eqn:E; [|reflexivity].
      apply isDelimiter_LChar_range in E. lia. }
  unfold isTokenCharacter, isDelimiter.
  destruct (Z.ltb_spec c 0x80) as [Hlow|Hh].
  - rewrite static_cast_LChar_ascii by lia. cbn [andb].
    repeat split; try reflexivity; lia.
  - destruct (Hhigh Hh) as [-> ->]. cbn [andb]. repeat split; reflexivity.
Qed.

Lemma C10_wide_narrow_agree_witness :
  isTokenCharacter 0x41 = isTokenCharacter_LChar 0x41
  /\ isDelimiter 0x41 = isDelimiter_LChar 0x41
  /\ (0x80 <= 0x41 ->
      isTokenCharacter 0x41 = false /\ isTokenCharacter_LChar 0x41 = false
      /\ isDelimiter 0x41 = false /\ isDelimiter_LChar 0x41 = false).
Proof. apply (C10_wide_narrow_agree 0x41). lia. Defined.

(** ** The name validator *)

Lemma isValidName_loop_Forall (name : list char16_t) :
  isValidName_loop name = true <->
  Forall (fun c => isTokenCharacter c = true) name.
Proof.
  induction name as [|c name IH]; cbn [isValidName_loop].
  - split; [constructor | reflexivity].
  - destruct (isTokenCharacter c) eqn:E; cbn [negb].
    + rewrite IH. split; [intros H; constructor; assumption|].
      intros H. inversion H; assumption.
    + split; [discriminate|]. intros H. inversion H; congruence.
Qed.

Lemma token_not_delimiter (c : char16_t) :
  isDelimiter c = true -> isTokenCharacter c = false.
Proof.
  unfold isDelimiter, isTokenCharacter. intros H.
  apply andb_prop in H. destruct H as [-> H]. cbn [andb].
  generalize dependent (static_cast_LChar c). intros b H.
  unfold isDelimiter_LChar in H.
  unfold isTokenCharacter_LChar, isASCIIAlpha, isASCIIDigit.
  bool_arith; subst b; reflexivity.
Qed.

(** C6: the name validator accepts exactly the non-empty sequences of
    token characters; the empty name is rejected, and one character that
    is not a token character (any delimiter, for one) rejects the name
    wherever it stands. *)
Theorem C6_isValidName_spec :
  (forall name : list char16_t,
     isValidName name = true <->
     name <> [] /\ Forall (fun c => isTokenCharacter c = true) name)
  /\ isValidName [] = false
  /\ (forall (before after : list char16_t) (c : char16_t),
        isTokenCharacter c = false ->
        isValidName (before ++ c :: after) = false)
  /\ (forall c : char16_t, isDelimiter c = true -> isTokenCharacter c = false)
  /\ isValidName (str "Foo:Bar") = false
  /\ isValidName (str "X-Custom-Header") = true.
Proof.
  assert (Hspec : forall name : list char16_t,
     isValidName name = true <->
     name <> [] /\ Forall (fun c => isTokenCharacter c = true) name).
  { intros name. unfold isValidName.
    destruct name as [|c name].
    - cbn. split; [discriminate | intros [H _]; congruence].
    - cbn [length Nat.eqb]. rewrite isValidName_loop_Forall.
      split; [intros H; split; [discriminate | exact H] | intros [_ H]; exact H]. }
  split; [exact Hspec|].
  split; [reflexivity|].
  split.
  { intros before after c Hc.
    destruct (isValidName (before ++ c :: after)) eqn:E; [|reflexivity].
    apply Hspec in E. destruct E as [_ E].
    apply Forall_app in E. destruct E as [_ E].
    inversion E; congruence. }
  split; [exact token_not_delimiter|].
  split; vm_compute; reflexivity.
Qed.

Lemma C6_isValidName_spec_witness :
  isValidName (str "a" ++ 0x3A :: str "b") = false.
Proof.
  apply (proj1 (proj2 (proj2 C6_isValidName_spec)) (str "a") (str "b") 0x3A).
  reflexivity.
Defined.

(** ** Facts about single iterations *)

Ltac split_body :=
  repeat match goal with
  | H : context [match ?x with _ => _ end] |- _ =>
      let E := fresh "E" in destruct x eqn:E
  | H : context [if ?b then _ else _] |- _ =>
      let E := fresh "E" in destruct b eqn:E
  end.

(** The only value ever returned from inside the loop is [false]. *)
Lemma body_return_false value i l b :
  body value i l = Ok (Return b) -> b = false.
Proof.
  unfold body, quotedPair, read, bind. intros H.
  split_body; congruence.
Qed.

(** An iteration that continues leaves the index where it was, or one
    further (after a backslash) and then still below the length. *)
Lemma body_continue_index value i l i' l' :
  (i < length value)%nat ->
  body value i l = Ok (Continue i' l') ->
  i' = i \/ (i' = S i /\ (S i < length value)%nat).
Proof.
  unfold body, quotedPair, read, bind. intros Hlt H.
  split_body; try congruence;
    try (left; congruence);
    right; (split; [congruence|]);
    match goal with
    | E : (_ =? _)%nat = false |- _ => apply Nat.eqb_neq in E
    end; lia.
Qed.

Lemma loop_returned_false fuel value :
  forall i l b, loop fuel value i l = Ok (Returned b) -> b = false.
Proof.
  induction fuel as [|fuel IH]; intros i l b; cbn [loop]; [discriminate|].
  destruct (i <? length value)%nat; [|discriminate].
  destruct (body value i l) as [[i' l'|b']| |] eqn:E; cbn [bind];
    try discriminate.
  - apply IH.
  - intros [= <-]. eapply body_return_false; eauto.
Qed.

Lemma reachable_index (value : list char16_t) i l :
  reachable value i l -> (i <= length value)%nat.
Proof.
  induction 1 as [|i l i' l' _ IH Hlt Hb]; [lia|].
  destruct (body_continue_index _ _ _ _ _ Hlt Hb) as [-> | [-> ?]]; lia.
Qed.

(** The reachable configurations are those the run passes through: from
    each of them the loop goes on to the result of the whole run. *)
Lemma reachable_on_run (value : list char16_t) i l :
  reachable value i l ->
  loop (S (length value - i)) value i l
  = loop (S (length value)) value 0 initial.
Proof.
  induction 1 as [|i l i' l' Hr IH Hlt Hb].
  - rewrite Nat.sub_0_r. reflexivity.
  - rewrite <- IH.
    assert (Hi' : (i <= i' /\ S i' <= length value)%nat).
    { destruct (body_continue_index _ _ _ _ _ Hlt Hb) as [-> | [-> ?]]; lia. }
    rewrite (loop_scan (S (length value - S i'))) by lia.
    remember (length value - i)%nat as fuel eqn:Hfuel.
    cbn [loop]. destruct (Nat.ltb_spec i (length value)) as [_|?]; [|lia].
    rewrite Hb. cbn [bind].
    rewrite loop_scan by lia. reflexivity.
Qed.

(** ** Facts about the scan *)

Lemma token_not_whitespace (c : char16_t) :
  isTokenCharacter c = true -> isWhitespace c = false.
Proof.
  unfold isWhitespace. intros H.
  destruct (Z.eqb_spec c 0x20) as [->|_]; [discriminate H|].
  destruct (Z.eqb_spec c 0x09) as [->|_]; [discriminate H|].
  reflexivity.
Qed.

Lemma whitespace_not_token (c : char16_t) :
  isWhitespace c = true -> isTokenCharacter c = false.
Proof.
  intros H. destruct (isTokenCharacter c) eqn:E; [|reflexivity].
  apply token_not_whitespace in E. congruence.
Qed.

Lemma scan_whitespace (rest tail : list char16_t) l :
  state l = OptionalWhitespace ->
  Forall (fun c => isWhitespace c = true) rest ->
  scan l (rest ++ tail) = scan l tail.
Proof.
  intros Hs H. induction H as [|c rest Hc _ IH]; [reflexivity|].
  cbn [app scan]. rewrite Hs, Hc. exact IH.
Qed.

Lemma scan_token_run (tok tail : list char16_t) l :
  state l = Token ->
  Forall (fun c => isTokenCharacter c = true) tok ->
  scan l (tok ++ tail) = scan l tail.
Proof.
  intros Hs H. induction H as [|c tok Hc _ IH]; [reflexivity|].
  cbn [app scan]. rewrite Hs, Hc. exact IH.
Qed.

(** Leaving a token: whatever character ends it is passed over, and the
    scan goes on after it in [OptionalWhitespace]. *)
Lemma scan_token_end (c : char16_t) (tail : list char16_t) l :
  state l = Token ->
  isTokenCharacter c = false ->
  scan l (c :: tail) = scan (set_state OptionalWhitespace l) tail.
Proof. intros Hs Hc. cbn [scan]. rewrite Hs, Hc. reflexivity. Qed.

Lemma scan_token_start (c : char16_t) (tail : list char16_t) l :
  state l = OptionalWhitespace ->
  isTokenCharacter c = true ->
  scan l (c :: tail) = scan (set_state Token (set_hadNonWhitespace true l)) tail.
Proof.
  intros Hs Hc. cbn [scan]. rewrite Hs, Hc, (token_not_whitespace _ Hc).
  reflexivity.
Qed.

Lemma forallb_whitespace (rest : list char16_t) :
  forallb isWhitespace rest = true <->
  Forall (fun w => isWhitespace w = true) rest.
Proof.
  induction rest as [|c rest IH]; cbn [forallb].
  - split; [constructor | reflexivity].
  - rewrite andb_true_iff, IH. split.
    + intros [H1 H2]. constructor; assumption.
    + intros H. inversion H; subst. split; assumption.
Qed.

(** Between segments the scan differs from a fresh one only in that
    whitespace alone is now enough. *)
Lemma scan_between_segments (rest : list char16_t) :
  exit_value (scan between_segments rest) =
  forallb isWhitespace rest || exit_value (scan initial rest).
Proof.
  induction rest as [|c rest IH]; [reflexivity|].
  cbn [scan forallb]. cbn [state between_segments initial].
  destruct (isWhitespace c); [exact IH|]. reflexivity.
Qed.

(** ** Wide code units *)

(** Read in any state but [Token], a code unit from 0x100 up ends the
    scan with [false]; so does one that follows a backslash. *)
Lemma scan_wide_unit_rejected (c : char16_t) (tail : list char16_t) l :
  0x100 <= c ->
  state l <> Token ->
  scan l (c :: tail) = Returned false.
Proof.
  intros Hc Hs.
  destruct (wide_unit_no_class c Hc) as (Ht & _ & Hw & _ & Hq & _ & Hm).
  assert (c <> DQUOTE /\ c <> LPAREN /\ c <> RPAREN /\ c <> BACKSLASH)
    as (H1 & H2 & H3 & H4) by (unfold DQUOTE, LPAREN, RPAREN, BACKSLASH; lia).
  apply Z.eqb_neq in H1, H2, H3, H4.
  cbn [scan]. destruct (state l); [| congruence | |];
    rewrite ?Hw, ?Ht, ?H1, ?H2, ?H3, ?H4, ?Hq, ?Hm; reflexivity.
Qed.

Lemma scan_wide_unit_escaped (c : char16_t) (tail : list char16_t) l :
  0x100 <= c ->
  state l = QuotedString \/ state l = Comment ->
  scan l (BACKSLASH :: c :: tail) = Returned false.
Proof.
  intros Hc Hs.
  destruct (wide_unit_no_class c Hc) as (_ & _ & _ & _ & _ & Hp & _).
  cbn [scan]. destruct Hs as [-> | ->]; cbn; rewrite Hp; reflexivity.
Qed.

(** C2, evaluated where it fails: the code unit 0x100 belongs to no
    grammar class, yet read in [Token] state it only ends the token, and
    the value made of the letter a followed by 0x100 is accepted, by the
    validator and by [create]. *)
Theorem C2_wide_unit_after_token_accepted :
  isTokenCharacter 0x100 = false
  /\ isDelimiter 0x100 = false
  /\ isOBSText 0x100 = false
  /\ body [0x61; 0x100] 1 after_token = Ok (Continue 1 between_segments)
  /\ isValidValue [0x61; 0x100] = Ok true
  /\ create (str "a") [0x61; 0x100]
     = Ok (Some {| name := str "a"; value := [0x61; 0x100] |}).
Proof. repeat split; vm_compute; reflexivity. Qed.

(** ** Leaving a token *)

(** C3 as stated fails: in the value a;b the token a is ended by the
    semicolon, which is none of whitespace, token character, double quote
    or opening parenthesis, and the value is accepted.  The iteration that
    reads the semicolon continues at its own index, so the loop goes on at
    the next one. *)
Lemma C3_semicolon_after_token_accepted :
  isWhitespace 0x3B = false
  /\ isTokenCharacter 0x3B = false
  /\ 0x3B <> DQUOTE /\ 0x3B <> LPAREN
  /\ body (str "a;b") 1 after_token = Ok (Continue 1 between_segments)
  /\ isValidValue (str "a;b") = Ok true.
Proof. repeat split; vm_compute; try reflexivity; discriminate. Qed.

(** C3, amended: a whitespace or delimiter character read in [Token]
    state moves the scanner to [OptionalWhitespace] and is consumed by
    that same iteration, so it is not looked at under the
    [OptionalWhitespace] rules; those rules apply from the next character
    on.  A value made of a token, one such character and a remainder is
    accepted exactly when the remainder is all whitespace or is itself an
    accepted value. *)
Theorem C3_token_boundary_consumed
    (tok rest : list char16_t) (c : char16_t) :
  tok <> [] ->
  Forall (fun t => isTokenCharacter t = true) tok ->
  isWhitespace c = true \/ isDelimiter c = true ->
  (forall value i l,
     state l = Token -> value !! i = Some c ->
     body value i l = Ok (Continue i (set_state OptionalWhitespace l)))
  /\ (isValidValue (tok ++ c :: rest) = Ok true <->
      Forall (fun w => isWhitespace w = true) rest
      \/ isValidValue rest = Ok true).
Proof.
  intros Hne Htok Hc.
  assert (Hnt : isTokenCharacter c = false).
  { destruct Hc; [apply whitespace_not_token | apply token_not_delimiter];
      assumption. }
  split.
  - intros value i l Hs Hi. unfold body. rewrite (read_lookup _ _ _ Hi).
    cbn [bind]. rewrite Hs, Hnt. reflexivity.
  - rewrite !isValidValue_scan.
    destruct tok as [|t tok]; [congruence|].
    inversion Htok as [|? ? Ht Htok']; subst.
    cbn [app]. rewrite scan_token_start by (reflexivity || assumption).
    rewrite scan_token_run by (reflexivity || assumption).
    rewrite scan_token_end by (reflexivity || assumption).
    change (set_state OptionalWhitespace
              (set_state Token (set_hadNonWhitespace true initial)))
      with between_segments.
    rewrite scan_between_segments.
    split.
    + intros [= H]. apply orb_prop in H. destruct H as [H|H].
      * left. apply forallb_whitespace. exact H.
      * right. rewrite H. reflexivity.
    + intros [H|H]; f_equal; apply orb_true_iff.
      * left. apply forallb_whitespace. exact H.
      * right. injection H as H. exact H.
Qed.

Lemma C3_token_boundary_consumed_witness :
  isValidValue (str "text" ++ 0x2F :: str "html") = Ok true.
Proof.
  apply (proj2 (C3_token_boundary_consumed (str "text") (str "html") 0x2F
                  ltac:(discriminate)
                  ltac:(repeat constructor)
                  ltac:(right; reflexivity))).
  right. reflexivity.
Defined.

(** ** The end of the input *)

Lemma isValidValue_total (value : list char16_t) :
  isValidValue value = Ok true \/ isValidValue value = Ok false.
Proof.
  rewrite isValidValue_scan.
  destruct (exit_value (scan initial value)); [left | right]; reflexivity.
Qed.

Lemma loop_whitespace_only (value : list char16_t) :
  Forall (fun c => isWhitespace c = true) value ->
  loop (S (length value)) value 0 initial = Ok (Finished initial).
Proof.
  intros H. rewrite loop_from_start.
  rewrite <- (app_nil_r value).
  rewrite scan_whitespace by (reflexivity || assumption). reflexivity.
Qed.

(** C4: once the loop has run off the end of the input, the value is
    accepted exactly when the state is [OptionalWhitespace] or [Token] and
    [hadNonWhitespace] is set.  A loop that ends in [QuotedString] or
    [Comment] gives [false].  On an empty or all-whitespace value the
    loop ends with the initial locals, [hadNonWhitespace] still unset,
    and the value is rejected. *)
Theorem C4_termination_rule (value : list char16_t) :
  (isValidValue value = Ok true <->
   exists l,
     loop (S (length value)) value 0 initial = Ok (Finished l)
     /\ (state l = OptionalWhitespace \/ state l = Token)
     /\ hadNonWhitespace l = true)
  /\ (isValidValue value = Ok true \/ isValidValue value = Ok false)
  /\ (forall l,
        loop (S (length value)) value 0 initial = Ok (Finished l) ->
        state l = QuotedString \/ state l = Comment ->
        isValidValue value = Ok false)
  /\ (Forall (fun c => isWhitespace c = true) value ->
        loop (S (length value)) value 0 initial = Ok (Finished initial)
        /\ hadNonWhitespace initial = false
        /\ isValidValue value = Ok false)
  /\ isValidValue (str "simple-token") = Ok true
  /\ isValidValue (str "") = Ok false
  /\ isValidValue (str "   ") = Ok false
  /\ isValidValue (DQUOTE :: str "quoted value" ++ [DQUOTE]) = Ok true
  /\ isValidValue (DQUOTE :: str "unterminated") = Ok false.
Proof.
  split.
  { unfold isValidValue.
    destruct (loop (S (length value)) value 0 initial) as [[b|l]| |] eqn:E;
      cbn [bind].
    - apply loop_returned_false in E. subst b.
      split; [discriminate | intros (l & Hl & _); discriminate].
    - unfold final. split.
      + intros [= H]. exists l. split; [reflexivity|].
        destruct (state l); try discriminate; auto.
      + intros (l' & [= <-] & Hs & Hh). f_equal.
        destruct Hs as [-> | ->]; exact Hh.
    - split; [discriminate | intros (l & Hl & _); discriminate].
    - split; [discriminate | intros (l & Hl & _); discriminate]. }
  split; [apply isValidValue_total|].
  split.
  { intros l Hl Hs. unfold isValidValue. rewrite Hl. cbn [bind].
    unfold final. destruct Hs as [-> | ->]; reflexivity. }
  split.
  { intros H. pose proof (loop_whitespace_only value H) as Hl.
    split; [exact Hl|]. split; [reflexivity|].
    unfold isValidValue. rewrite Hl. reflexivity. }
  repeat split; vm_compute; reflexivity.
Qed.

Lemma C4_termination_rule_witness :
  isValidValue (str "(open") = Ok false
  /\ isValidValue [0x20; 0x09] = Ok false.
Proof.
  split.
  - apply (proj1 (proj2 (proj2 (C4_termination_rule (str "(open"))))
             {| state := Comment; commentDepth := 1;
                hadNonWhitespace := true |});
      [reflexivity | right; reflexivity].
  - apply (proj1 (proj2 (proj2 (proj2 (C4_termination_rule [0x20; 0x09]))))).
    repeat constructor.
Defined.

(** ** Backslash escapes *)

(** C5 as stated fails in its clause on a trailing backslash: the value
    abc followed by a backslash ends in a backslash and is accepted.  The
    backslash is read in [Token] state, where it only ends the token: the
    iteration continues at its own index in [OptionalWhitespace], the
    loop runs off the end, and [hadNonWhitespace] is returned. *)
Lemma C5_trailing_backslash_after_token_accepted :
  length (str "abc" ++ [BACKSLASH]) = 4%nat
  /\ (str "abc" ++ [BACKSLASH]) !! 3%nat = Some BACKSLASH
  /\ body (str "abc" ++ [BACKSLASH]) 3 after_token
     = Ok (Continue 3 between_segments)
  /\ isValidValue (str "abc" ++ [BACKSLASH]) = Ok true.
Proof. repeat split; vm_compute; reflexivity. Qed.

(** C5, amended: a backslash read in [QuotedString] or [Comment] takes
    exactly the one character after it: if there is none the iteration
    returns [false]; if there is one it must be a quoted-pair second
    octet (whitespace, visible character or obs-text), else the
    iteration returns [false]; otherwise the iteration continues from
    the escaped character's index with the locals unchanged.  A
    backslash that is the last character of the input makes the
    validator return [false] whenever it is read in a state other than
    [Token]; read in [Token] state it ends the token and is passed over.
    No evaluation of [value[i]] has [i] outside the input:
    [isValidValue] never ends in [OutOfRange], and always ends. *)
Theorem C5_backslash_escape (value : list char16_t) :
  (forall i l,
     state l = QuotedString \/ state l = Comment ->
     value !! i = Some BACKSLASH ->
     body value i l =
       match value !! S i with
       | None => Ok (Return false)
       | Some c2 =>
           if isWhitespace c2 || isVisibleCharacter c2 || isOBSText c2
           then Ok (Continue (S i) l)
           else Ok (Return false)
       end)
  /\ (forall i l,
        state l = QuotedString \/ state l = Comment ->
        value !! i = Some BACKSLASH ->
        S i = length value ->
        loop (S (length value - i)) value i l = Ok (Returned false))
  /\ (forall fuel i l c2,
        state l = QuotedString \/ state l = Comment ->
        value !! i = Some BACKSLASH ->
        value !! S i = Some c2 ->
        isQuotedPairSecondOctet c2 = true ->
        loop (S fuel) value i l = loop fuel value (S (S i)) l)
  /\ (forall i l,
        reachable value i l ->
        state l = QuotedString \/ state l = Comment ->
        value !! i = Some BACKSLASH ->
        match value !! S i with
        | None => True
        | Some c2 => isQuotedPairSecondOctet c2 = false
        end ->
        isValidValue value = Ok false)
  /\ (forall i l,
        reachable value i l ->
        state l <> Token ->
        value !! i = Some BACKSLASH ->
        S i = length value ->
        isValidValue value = Ok false)
  /\ (forall i l,
        state l = Token ->
        value !! i = Some BACKSLASH ->
        body value i l = Ok (Continue i (set_state OptionalWhitespace l)))
  /\ (isValidValue value = Ok true \/ isValidValue value = Ok false)
  /\ (forall i, isValidValue value <> OutOfRange i)
  /\ isValidValue
       (DQUOTE :: str "escaped " ++ [BACKSLASH; DQUOTE] ++ str " quote"
          ++ [DQUOTE]) = Ok true
  /\ isValidValue (DQUOTE :: str "abc" ++ [BACKSLASH]) = Ok false.
Proof.
  assert (Hbody : forall i l,
     state l = QuotedString \/ state l = Comment ->
     value !! i = Some BACKSLASH ->
     body value i l =
       match value !! S i with
       | None => Ok (Return false)
       | Some c2 =>
           if isWhitespace c2 || isVisibleCharacter c2 || isOBSText c2
           then Ok (Continue (S i) l)
           else Ok (Return false)
       end).
  { intros i l Hs Hi. unfold body. rewrite (read_lookup _ _ _ Hi).
    cbn [bind].
    assert (Hq : quotedPair value i l =
       match value !! S i with
       | None => Ok (Return false)
       | Some c2 =>
           if isWhitespace c2 || isVisibleCharacter c2 || isOBSText c2
           then Ok (Continue (S i) l)
           else Ok (Return false)
       end).
    { unfold quotedPair.
      assert (Hlt : (i < length value)%nat) by (eapply lookup_lt_Some; eauto).
      destruct (Nat.eqb_spec (S i) (length value)) as [E|E].
      - rewrite (lookup_ge_None_2 value (S i)) by lia. reflexivity.
      - destruct (lookup_lt_is_Some_2 value (S i)) as [c2 Hc2]; [lia|].
        rewrite Hc2, (read_lookup _ _ _ Hc2). cbn [bind].
        change (isWhitespace c2 || isVisibleCharacter c2 || isOBSText c2)
          with (isQuotedPairSecondOctet c2).
        destruct (isQuotedPairSecondOctet c2); reflexivity. }
    destruct Hs as [-> | ->]; exact Hq. }
  split; [exact Hbody|].
  split.
  { intros i l Hs Hi Hlast. cbn [loop].
    destruct (Nat.ltb_spec i (length value)) as [_|Hge]; [|lia].
    rewrite (Hbody i l Hs Hi).
    rewrite (lookup_ge_None_2 value (S i)) by lia. reflexivity. }
  split.
  { intros fuel i l c2 Hs Hi Hc2 Hok. cbn [loop].
    assert (Hlt : (i < length value)%nat) by (eapply lookup_lt_Some; eauto).
    destruct (Nat.ltb_spec i (length value)) as [_|Hge]; [|lia].
    rewrite (Hbody i l Hs Hi), Hc2.
    change (isWhitespace c2 || isVisibleCharacter c2 || isOBSText c2)
      with (isQuotedPairSecondOctet c2).
    rewrite Hok. reflexivity. }
  split.
  { intros i l Hr Hs Hi Hnext.
    assert (Hlt : (i < length value)%nat) by (eapply lookup_lt_Some; eauto).
    assert (Hb : body value i l = Ok (Return false)).
    { rewrite (Hbody i l Hs Hi).
      destruct (value !! S i) as [c2|]; [|reflexivity].
      change (isWhitespace c2 || isVisibleCharacter c2 || isOBSText c2)
        with (isQuotedPairSecondOctet c2).
      rewrite Hnext. reflexivity. }
    unfold isValidValue. rewrite <- (reachable_on_run _ _ _ Hr).
    cbn [loop]. destruct (Nat.ltb_spec i (length value)) as [_|?]; [|lia].
    rewrite Hb. reflexivity. }
  split.
  { intros i l Hr Hs Hi Hlast.
    assert (Hlt : (i < length value)%nat) by (eapply lookup_lt_Some; eauto).
    assert (Hb : body value i l = Ok (Return false)).
    { destruct (state l) eqn:E.
      - unfold body. rewrite (read_lookup _ _ _ Hi). cbn [bind].
        rewrite E. reflexivity.
      - congruence.
      - rewrite (Hbody i l (or_introl E) Hi).
        rewrite (lookup_ge_None_2 value (S i)) by lia. reflexivity.
      - rewrite (Hbody i l (or_intror E) Hi).
        rewrite (lookup_ge_None_2 value (S i)) by lia. reflexivity. }
    unfold isValidValue. rewrite <- (reachable_on_run _ _ _ Hr).
    cbn [loop]. destruct (Nat.ltb_spec i (length value)) as [_|?]; [|lia].
    rewrite Hb. reflexivity. }
  split.
  { intros i l Hs Hi. unfold body. rewrite (read_lookup _ _ _ Hi).
    cbn [bind]. rewrite Hs. reflexivity. }
  split; [apply isValidValue_total|].
  split.
  { intros i. rewrite isValidValue_scan. discriminate. }
  split; vm_compute; reflexivity.
Qed.

Lemma C5_backslash_escape_witness :
  body (DQUOTE :: str "a" ++ [BACKSLASH]) 2
    {| state := QuotedString; commentDepth := 0; hadNonWhitespace := true |}
  = Ok (Return false)
  /\ isValidValue (str "a " ++ [BACKSLASH]) = Ok false.
Proof.
  split.
  - apply (proj1 (C5_backslash_escape (DQUOTE :: str "a" ++ [BACKSLASH]))
             2%nat
             {| state := QuotedString; commentDepth := 0;
                hadNonWhitespace := true |});
      [left; reflexivity | reflexivity].
  - apply (proj1 (proj2 (proj2 (proj2 (proj2
             (C5_backslash_escape (str "a " ++ [BACKSLASH]))))))
             2%nat between_segments);
      [ apply (reachable_continue _ 1%nat after_token 1%nat);
          [ apply (reachable_continue _ 0%nat initial 0%nat);
              [ apply reachable_initial | simpl; lia | reflexivity ]
          | simpl; lia | reflexivity ]
      | discriminate | reflexivity | reflexivity ].
Defined.

(** ** Comment nesting *)

Lemma wrap_size_t_small (z : Z) : 0 <= z < SIZE_MOD -> wrap_size_t z = z.
Proof. intros H. unfold wrap_size_t. apply Z.mod_small. exact H. Qed.

Lemma set_commentDepth_same l : set_commentDepth (commentDepth l) l = l.
Proof. destruct l. reflexivity. Qed.

Ltac depth_side :=
  cbn [state commentDepth hadNonWhitespace
       set_state set_commentDepth set_hadNonWhitespace];
  (reflexivity || assumption || lia).

Lemma scan_open_parens (n : nat) (tail : list char16_t) :
  forall l,
    state l = Comment ->
    0 <= commentDepth l ->
    commentDepth l + Z.of_nat n < SIZE_MOD ->
    scan l (repeat LPAREN n ++ tail)
    = scan (set_commentDepth (commentDepth l + Z.of_nat n) l) tail.
Proof.
  induction n as [|n IH]; intros l Hs H0 Hn.
  - cbn [repeat app]. rewrite Z.add_0_r, set_commentDepth_same. reflexivity.
  - cbn [repeat app scan]. rewrite Hs. cbn.
    rewrite wrap_size_t_small by lia.
    rewrite IH by depth_side.
    f_equal. unfold set_commentDepth.
    cbn [state commentDepth hadNonWhitespace]. f_equal. lia.
Qed.

Lemma scan_close_parens (n : nat) (tail : list char16_t) :
  forall l,
    state l = Comment ->
    Z.of_nat n < commentDepth l < SIZE_MOD ->
    scan l (repeat RPAREN n ++ tail)
    = scan (set_commentDepth (commentDepth l - Z.of_nat n) l) tail.
Proof.
  induction n as [|n IH]; intros l Hs Hn.
  - cbn [repeat app]. rewrite Z.sub_0_r, set_commentDepth_same. reflexivity.
  - cbn [repeat app scan]. rewrite Hs. cbn.
    rewrite wrap_size_t_small by lia.
    destruct (Z.eqb_spec (commentDepth l - 1) 0) as [E|E]; [lia|].
    rewrite IH by depth_side.
    f_equal. unfold set_commentDepth.
    cbn [state commentDepth hadNonWhitespace]. f_equal. lia.
Qed.

Lemma scan_last_paren (tail : list char16_t) l :
  state l = Comment ->
  commentDepth l = 1 ->
  scan l (RPAREN :: tail)
  = scan (set_state OptionalWhitespace (set_commentDepth 0 l)) tail.
Proof. intros Hs Hd. cbn [scan]. rewrite Hs, Hd. reflexivity. Qed.

Lemma scan_comment_start (tail : list char16_t) l :
  state l = OptionalWhitespace ->
  scan l (LPAREN :: tail)
  = scan (set_state Comment
            (set_commentDepth (wrap_size_t (commentDepth l + 1))
               (set_hadNonWhitespace true l))) tail.
Proof. intros Hs. cbn [scan]. rewrite Hs. reflexivity. Qed.

Lemma scan_nested (n : nat) (k : nat) :
  (0 < n)%nat -> Z.of_nat n < SIZE_MOD -> (k <= n)%nat ->
  scan initial (repeat LPAREN n ++ repeat RPAREN k)
  = Finished
      {| state := if (k =? n)%nat then OptionalWhitespace else Comment;
         commentDepth := Z.of_nat n - Z.of_nat k;
         hadNonWhitespace := true |}.
Proof.
  intros Hn Hmax Hk.
  destruct n as [|n]; [lia|]. cbn [repeat app].
  rewrite scan_comment_start by reflexivity.
  change (wrap_size_t (commentDepth initial + 1)) with 1.
  rewrite scan_open_parens by depth_side.
  cbn [state commentDepth hadNonWhitespace
       set_state set_commentDepth set_hadNonWhitespace initial].
  destruct (Nat.eqb_spec k (S n)) as [->|Hne].
  - change (repeat RPAREN (S n)) with (RPAREN :: repeat RPAREN n).
    rewrite repeat_cons.
    rewrite scan_close_parens by depth_side.
    cbn [app]. rewrite scan_last_paren by depth_side.
    cbn [scan]. f_equal.
    unfold set_state, set_commentDepth, set_hadNonWhitespace, initial.
    cbn [state commentDepth hadNonWhitespace]. f_equal. lia.
  - rewrite <- (app_nil_r (repeat RPAREN k)).
    rewrite scan_close_parens by depth_side.
    cbn [scan]. f_equal.
    unfold set_state, set_commentDepth, set_hadNonWhitespace, initial.
    cbn [state commentDepth hadNonWhitespace]. f_equal. lia.
Qed.

(** C7: one counter tracks the nesting.  In [Comment] an opening
    parenthesis adds one to [commentDepth] and a closing one takes one
    off, moving to [OptionalWhitespace] exactly when the counter is then
    zero.  After [n] opening and [k <= n] closing parentheses the counter
    stands at [n - k] and the state is [OptionalWhitespace] exactly when
    [k = n], for any depth a [size_t] can hold; so balanced nests of any
    depth are accepted and unbalanced ones rejected. *)
Theorem C7_comment_nesting :
  (forall (value : list char16_t) i l,
     state l = Comment -> value !! i = Some LPAREN ->
     body value i l
     = Ok (Continue i
             (set_commentDepth (wrap_size_t (commentDepth l + 1)) l)))
  /\ (forall (value : list char16_t) i l,
        state l = Comment -> value !! i = Some RPAREN ->
        body value i l
        = Ok (Continue i
                (let l' :=
                   set_commentDepth (wrap_size_t (commentDepth l - 1)) l in
                 if commentDepth l' =? 0
                 then set_state OptionalWhitespace l' else l')))
  /\ (forall n k : nat,
        (0 < n)%nat -> Z.of_nat n < SIZE_MOD -> (k <= n)%nat ->
        let value := repeat LPAREN n ++ repeat RPAREN k in
        loop (S (length value)) value 0 initial
        = Ok (Finished
                {| state := if (k =? n)%nat
                            then OptionalWhitespace else Comment;
                   commentDepth := Z.of_nat n - Z.of_nat k;
                   hadNonWhitespace := true |})
        /\ isValidValue value = Ok (k =? n)%nat)
  /\ isValidValue (str "token (a nested (comment) here) token") = Ok true
  /\ isValidValue (str "token (unterminated") = Ok false.
Proof.
  split.
  { intros value i l Hs Hi. unfold body. rewrite (read_lookup _ _ _ Hi).
    cbn [bind]. rewrite Hs. reflexivity. }
  split.
  { intros value i l Hs Hi. unfold body. rewrite (read_lookup _ _ _ Hi).
    cbn [bind]. rewrite Hs. cbv zeta.
    change (RPAREN =? LPAREN) with false. rewrite Z.eqb_refl. cbv iota.
    destruct (commentDepth _ =? 0); reflexivity. }
  split.
  { intros n k Hn Hmax Hk value.
    pose proof (scan_nested n k Hn Hmax Hk) as Hscan. fold value in Hscan.
    split.
    - rewrite loop_from_start, Hscan. reflexivity.
    - rewrite isValidValue_scan, Hscan. cbn [exit_value]. unfold final.
      cbn [state hadNonWhitespace].
      destruct (k =? n)%nat; reflexivity. }
  split; vm_compute; reflexivity.
Qed.

Lemma C7_comment_nesting_witness :
  isValidValue (repeat LPAREN 3 ++ repeat RPAREN 3) = Ok true
  /\ isValidValue (repeat LPAREN 3 ++ repeat RPAREN 2) = Ok false.
Proof.
  split.
  - apply (proj2 (proj1 (proj2 (proj2 C7_comment_nesting)) 3%nat 3%nat
                    ltac:(lia) ltac:(reflexivity) ltac:(lia))).
  - apply (proj2 (proj1 (proj2 (proj2 C7_comment_nesting)) 3%nat 2%nat
                    ltac:(lia) ltac:(reflexivity) ltac:(lia))).
Defined.

(** ** The depth counter and the state *)

Lemma depth_tracks_state_reachable (value : list char16_t) i l :
  Z.of_nat (length value) < SIZE_MOD ->
  reachable value i l ->
  depth_tracks_state i l.
Proof.
  intros Hlen Hr.
  induction Hr as [|i l i' l' Hr IH Hlt Hb].
  - unfold depth_tracks_state. cbn. split; [|lia].
    split; [lia | discriminate].
  - pose proof (body_continue_index _ _ _ _ _ Hlt Hb) as Hi'.
    destruct IH as [Hiff Hrange].
    assert (Hwrap_up : wrap_size_t (commentDepth l + 1) = commentDepth l + 1)
      by (apply wrap_size_t_small; lia).
    unfold depth_tracks_state.
    destruct l as [s d h]. cbn [state commentDepth] in *.
    unfold body, quotedPair, read, bind in Hb.
    cbn [state commentDepth hadNonWhitespace set_state set_commentDepth
         set_hadNonWhitespace] in Hb.
    rewrite ?Hwrap_up in Hb.
    destruct s;
      split_body; try discriminate;
      injection Hb as <- <-;
      unfold set_state, set_commentDepth, set_hadNonWhitespace;
      cbn [state commentDepth hadNonWhitespace].
    (* outside [Comment] the counter is zero, inside it is positive *)
    all: try (assert (d = 0) by
                (destruct (Z.ltb_spec 0 d) as [Hpos|?]; [|lia];
                 apply Hiff in Hpos; discriminate); subst d).
    all: try (assert (0 < d) by (apply Hiff; reflexivity)).
    all: rewrite ?wrap_size_t_small in * by lia.
    all: bool_arith.
    all: split; [split; intros; try reflexivity; try discriminate; lia | lia].
Qed.

(** C9: in every configuration the run of [isValidValue] reaches,
    [commentDepth] is positive exactly when the state is [Comment].  So
    the decrement at a closing parenthesis in [Comment] starts from at
    least one and does not wrap, and at an opening parenthesis in
    [OptionalWhitespace] the counter is zero, as the assertion there
    says.  (The length of a value is a [size_t].) *)
Theorem C9_comment_depth_invariant (value : list char16_t) i l :
  Z.of_nat (length value) < SIZE_MOD ->
  reachable value i l ->
  (0 < commentDepth l <-> state l = Comment)
  /\ (state l = Comment -> value !! i = Some RPAREN ->
      0 <= commentDepth l - 1
      /\ wrap_size_t (commentDepth l - 1) = commentDepth l - 1)
  /\ (state l = OptionalWhitespace -> value !! i = Some LPAREN ->
      commentDepth l = 0).
Proof.
  intros Hlen Hr.
  pose proof (reachable_index _ _ _ Hr) as Hi.
  destruct (depth_tracks_state_reachable _ _ _ Hlen Hr) as [Hiff Hrange].
  split; [exact Hiff|]. split.
  - intros Hs _. apply Hiff in Hs.
    split; [lia | apply wrap_size_t_small; lia].
  - intros Hs _.
    destruct (Z.ltb_spec 0 (commentDepth l)) as [Hpos|?]; [|lia].
    apply Hiff in Hpos. congruence.
Qed.

Lemma C9_comment_depth_invariant_witness :
  let l := {| state := Comment; commentDepth := 2; hadNonWhitespace := true |} in
  (0 < commentDepth l <-> state l = Comment)
  /\ (state l = Comment -> str "(()" !! 2%nat = Some RPAREN ->
      0 <= commentDepth l - 1
      /\ wrap_size_t (commentDepth l - 1) = commentDepth l - 1)
  /\ (state l = OptionalWhitespace -> str "(()" !! 2%nat = Some LPAREN ->
      commentDepth l = 0).
Proof.
  apply (C9_comment_depth_invariant (str "(()") 2%nat).
  - reflexivity.
  - apply (reachable_continue _ 1%nat
             {| state := Comment; commentDepth := 1;
                hadNonWhitespace := true |} 1%nat);
      [ apply (reachable_continue _ 0%nat initial 0%nat);
          [ apply reachable_initial | simpl; lia | reflexivity ]
      | simpl; lia | reflexivity ].
Defined.

(** ** Trimming *)

Section Trim.
Context {A : Type} (p : A -> bool).

Lemma dropWhile_decomp (s : list A) :
  exists pre, s = pre ++ dropWhile p s /\ forallb p pre = true.
Proof.
  induction s as [|c s [pre [IH Hpre]]].
  - exists []. split; reflexivity.
  - cbn [dropWhile]. destruct (p c) eqn:E.
    + exists (c :: pre). cbn [app forallb]. rewrite E, Hpre.
      split; [f_equal; exact IH | reflexivity].
    + exists []. split; reflexivity.
Qed.

Lemma dropWhile_head (s : list A) c t :
  dropWhile p s = c :: t -> p c = false.
Proof.
  induction s as [|a s IH]; cbn [dropWhile]; [discriminate|].
  destruct (p a) eqn:E; [exact IH|]. intros [= <- _]. exact E.
Qed.

Lemma dropWhile_stable (s : list A) :
  match s with [] => True | c :: _ => p c = false end ->
  dropWhile p s = s.
Proof. destruct s as [|c s]; [reflexivity|]. cbn. intros ->. reflexivity. Qed.

Lemma dropWhile_idempotent (s : list A) :
  dropWhile p (dropWhile p s) = dropWhile p s.
Proof.
  apply dropWhile_stable.
  destruct (dropWhile p s) as [|c t] eqn:E; [exact I|].
  eapply dropWhile_head; eauto.
Qed.

(** What [trim] leaves is the input less a prefix and a suffix of
    characters that match. *)
Lemma trim_decomp (s : list A) :
  exists pre suf,
    s = pre ++ trim p s ++ suf
    /\ forallb p pre = true /\ forallb p suf = true.
Proof.
  unfold trim.
  destruct (dropWhile_decomp s) as [pre [Hs Hpre]].
  destruct (dropWhile_decomp (rev (dropWhile p s))) as [suf [Ht Hsuf]].
  exists pre, (rev suf). split; [|split; [exact Hpre|]].
  - rewrite <- rev_app_distr, <- Ht, rev_involutive. exact Hs.
  - rewrite forallb_forall in *. intros x Hx. apply Hsuf.
    apply in_rev. exact Hx.
Qed.

Lemma trim_same_length (s : list A) :
  length (trim p s) = length s -> trim p s = s.
Proof.
  intros Hlen. destruct (trim_decomp s) as (pre & suf & Hs & _ & _).
  assert (Hl : length s = (length pre + (length (trim p s) + length suf))%nat).
  { rewrite Hs at 1. rewrite !length_app. reflexivity. }
  destruct pre; [|cbn in Hl; lia]. destruct suf; [|cbn in Hl; lia].
  rewrite app_nil_r in Hs. cbn in Hs. congruence.
Qed.

Lemma trim_idempotent (s : list A) : trim p (trim p s) = trim p s.
Proof.
  unfold trim.
  set (t := dropWhile p s).
  set (u := dropWhile p (rev t)).
  assert (Hu : dropWhile p u = u) by apply dropWhile_idempotent.
  assert (Hfront : dropWhile p (rev u) = rev u).
  { apply dropWhile_stable.
    destruct (rev u) as [|c w] eqn:E; [exact I|].
    destruct (dropWhile_decomp (rev t)) as [suf [Ht _]]. fold u in Ht.
    apply (f_equal (@rev A)) in Ht.
    rewrite rev_involutive, rev_app_distr, E in Ht.
    eapply dropWhile_head. exact Ht. }
  rewrite Hfront, rev_involutive, Hu. reflexivity.
Qed.
End Trim.

(** ** The field constructor *)

Lemma create_spec (unparsedName unparsedValue : list char16_t) :
  create unparsedName unparsedValue
  = Ok (if isValidName (trim isTabOrSpace unparsedName)
           && exit_value (scan initial (trim isTabOrSpace unparsedValue))
        then Some {| name := trim isTabOrSpace unparsedName;
                     value := trim isTabOrSpace unparsedValue |}
        else None).
Proof.
  unfold create. rewrite isValidValue_scan. cbn [bind].
  destruct (isValidName _); cbn [negb andb]; [|reflexivity].
  destruct (exit_value _); cbn [negb]; [|reflexivity].
  do 3 f_equal.
  - destruct (Nat.eqb_spec (length (trim isTabOrSpace unparsedName))
                (length unparsedName)) as [E|_]; [|reflexivity].
    symmetry. apply trim_same_length. exact E.
  - destruct (Nat.eqb_spec (length (trim isTabOrSpace unparsedValue))
                (length unparsedValue)) as [E|_]; [|reflexivity].
    symmetry. apply trim_same_length. exact E.
Qed.

(** C1: [create] trims space and tab from both ends of each input, runs
    the name validator on the trimmed name and the value validator on the
    trimmed value, returns no field when either says no, and otherwise a
    field holding exactly the two trimmed sequences; calling it on the
    trimmed inputs gives the same result. *)
Theorem C1_create_trims_then_validates
    (rawName rawValue : list char16_t) :
  let trimmedName := trim isTabOrSpace rawName in
  let trimmedValue := trim isTabOrSpace rawValue in
  (exists before after,
     rawName = before ++ trimmedName ++ after
     /\ forallb isTabOrSpace before = true
     /\ forallb isTabOrSpace after = true)
  /\ (exists before after,
        rawValue = before ++ trimmedValue ++ after
        /\ forallb isTabOrSpace before = true
        /\ forallb isTabOrSpace after = true)
  /\ (exists valid,
        isValidValue trimmedValue = Ok valid
        /\ create rawName rawValue
           = Ok (if isValidName trimmedName && valid
                 then Some {| name := trimmedName; value := trimmedValue |}
                 else None))
  /\ create rawName rawValue = create trimmedName trimmedValue
  /\ create (str "  X-Test  ") (str "  value  ")
     = Ok (Some {| name := str "X-Test"; value := str "value" |})
  /\ create (str "X-Test") (str "value")
     = Ok (Some {| name := str "X-Test"; value := str "value" |}).
Proof.
  intros trimmedName trimmedValue.
  split; [apply trim_decomp|].
  split; [apply trim_decomp|].
  split.
  { exists (exit_value (scan initial trimmedValue)).
    split; [apply isValidValue_scan | apply create_spec]. }
  split.
  { rewrite !create_spec. unfold trimmedName, trimmedValue.
    rewrite !trim_idempotent. reflexivity. }
  split; vm_compute; reflexivity.
Qed.

Lemma trim_same_length_iff {A} (p : A -> bool) (s : list A) :
  length (trim p s) = length s <-> trim p s = s.
Proof.
  split; [apply trim_same_length | intros ->; reflexivity].
Qed.

Lemma create_call_spec (unparsedName unparsedValue : list char16_t) :
  let ok :=
    isValidName (trim isTabOrSpace unparsedName)
    && exit_value (scan initial (trim isTabOrSpace unparsedValue)) in
  let after (s : list char16_t) :=
    if ok && (length (trim isTabOrSpace s) =? length s)%nat
    then MovedFrom else Holds s in
  create_call unparsedName unparsedValue
  = Ok {| returned :=
            if ok
            then Some {| name := trim isTabOrSpace unparsedName;
                         value := trim isTabOrSpace unparsedValue |}
            else None;
          unparsedName_after := after unparsedName;
          unparsedValue_after := after unparsedValue |}.
Proof.
  cbv zeta. unfold create_call. rewrite isValidValue_scan. cbn [bind].
  destruct (isValidName _); cbn [negb andb]; [|reflexivity].
  destruct (exit_value _); cbn [negb]; [|reflexivity].
  destruct (Nat.eqb_spec (length (trim isTabOrSpace unparsedName))
              (length unparsedName)) as [En|_];
    destruct (Nat.eqb_spec (length (trim isTabOrSpace unparsedValue))
                (length unparsedValue)) as [Ev|_];
    rewrite ?(trim_same_length _ _ En), ?(trim_same_length _ _ Ev);
    reflexivity.
Qed.

(** C8 as stated fails in its clause on side effects: called on the name
    a and the value b, from which trimming removes nothing, [create]
    returns the field and leaves both of its arguments moved from, no
    longer holding the strings they were called with. *)
Lemma C8_create_moves_from_its_arguments :
  create_call (str "a") (str "b")
  = Ok {| returned := Some {| name := str "a"; value := str "b" |};
          unparsedName_after := MovedFrom;
          unparsedValue_after := MovedFrom |}
  /\ MovedFrom <> Holds (str "a")
  /\ MovedFrom <> Holds (str "b").
Proof. split; [vm_compute; reflexivity | split; discriminate]. Qed.

(** C8, amended: what [create] returns is fixed by the contents of its
    two arguments: it is the field of the trimmed name and value when
    both are valid and no field otherwise, so two calls on equal inputs
    return the same outcome with equal stored name and value, and so do
    two calls on inputs that differ only in surrounding spaces and tabs.
    Its only effect is on its own two arguments: an argument is left
    moved from exactly when the call returns a field and trimming removed
    nothing from that argument; in every other case it still holds the
    string it was called with. *)
Theorem C8_create_result_and_effects
    (name1 value1 name2 value2 : list char16_t) :
  (exists outcome,
     create_call name1 value1 = Ok outcome
     /\ create name1 value1 = Ok (returned outcome)
     /\ (returned outcome
         = if isValidName (trim isTabOrSpace name1)
              && exit_value (scan initial (trim isTabOrSpace value1))
           then Some {| name := trim isTabOrSpace name1;
                        value := trim isTabOrSpace value1 |}
           else None)
     /\ (unparsedName_after outcome = MovedFrom <->
         returned outcome <> None /\ trim isTabOrSpace name1 = name1)
     /\ (unparsedName_after outcome <> MovedFrom ->
         unparsedName_after outcome = Holds name1)
     /\ (unparsedValue_after outcome = MovedFrom <->
         returned outcome <> None /\ trim isTabOrSpace value1 = value1)
     /\ (unparsedValue_after outcome <> MovedFrom ->
         unparsedValue_after outcome = Holds value1))
  /\ (name1 = name2 -> value1 = value2 ->
      create_call name1 value1 = create_call name2 value2)
  /\ (trim isTabOrSpace name1 = trim isTabOrSpace name2 ->
      trim isTabOrSpace value1 = trim isTabOrSpace value2 ->
      forall o1 o2,
        create_call name1 value1 = Ok o1 ->
        create_call name2 value2 = Ok o2 ->
        returned o1 = returned o2).
Proof.
  split; [|split].
  - eexists. split; [apply create_call_spec|]. cbn [returned
      unparsedName_after unparsedValue_after].
    split; [apply create_spec|]. split; [reflexivity|].
    destruct (isValidName (trim isTabOrSpace name1)
              && exit_value (scan initial (trim isTabOrSpace value1)));
      cbn [andb].
    + destruct (Nat.eqb_spec (length (trim isTabOrSpace name1))
                  (length name1)) as [En|En];
        destruct (Nat.eqb_spec (length (trim isTabOrSpace value1))
                    (length value1)) as [Ev|Ev];
        rewrite trim_same_length_iff in En, Ev;
        intuition congruence.
    + intuition congruence.
  - intros -> ->. reflexivity.
  - intros Hn Hv o1 o2 H1 H2.
    rewrite create_call_spec in H1, H2. cbv zeta in H1, H2.
    injection H1 as <-. injection H2 as <-. cbn [returned].
    rewrite Hn, Hv. reflexivity.
Qed.

Lemma C8_create_result_and_effects_witness :
  returned
    {| returned := Some {| name := str "Host"; value := str "example" |};
       unparsedName_after := Holds (str " Host");
       unparsedValue_after := Holds (str "example ") |}
  = returned
      {| returned := Some {| name := str "Host"; value := str "example" |};
         unparsedName_after := MovedFrom;
         unparsedValue_after := Holds (str "  example") |}.
Proof.
  apply (proj2 (proj2 (C8_create_result_and_effects
                         (str " Host") (str "example ")
                         (str "Host") (str "  example"))));
    reflexivity.
Defined.

(** * Further properties *)

(** ** The classifiers in closed form *)

(** A boolean property of the 7-bit code units, checked on each of
    them. *)
Lemma ascii_forall (P : Z -> bool) :
  forallb P (map Z.of_nat (seq 0 128)) = true ->
  forall c, 0 <= c < 0x80 -> P c = true.
Proof.
  intros H c Hc. rewrite forallb_forall in H. apply H.
  apply in_map_iff. exists (Z.to_nat c). split; [lia|].
  apply in_seq. lia.
Qed.

Lemma isVisibleCharacter_range (c : char16_t) :
  0 <= c ->
  isVisibleCharacter c = (0x21 <=? c) && (c <=? 0x7E).
Proof.
  intros H0. destruct (Z.ltb_spec c 0x80) as [Hlow|Hhigh].
  - apply Bool.eqb_prop.
    apply (ascii_forall (fun c =>
             Bool.eqb (isVisibleCharacter c) ((0x21 <=? c) && (c <=? 0x7E))));
      [vm_compute; reflexivity | lia].
  - unfold isVisibleCharacter, isTokenCharacter, isDelimiter.
    destruct (Z.ltb_spec c 0x80); [lia|].
    destruct (Z.leb_spec c 0x7E); [lia|]. rewrite andb_false_r. reflexivity.
Qed.

(** X1: a code unit is a visible character, that is a token character or
    a delimiter, exactly when it lies in 0x21..0x7E; no code unit is
    both.  So the two overloaded classifiers split the printable 7-bit
    range between them and accept nothing outside it. *)
Theorem X1_visible_characters (c : char16_t) :
  0 <= c ->
  (isVisibleCharacter c = true <-> 0x21 <= c <= 0x7E)
  /\ (isTokenCharacter c = true \/ isDelimiter c = true <-> 0x21 <= c <= 0x7E)
  /\ ~ (isTokenCharacter c = true /\ isDelimiter c = true).
Proof.
  intros H0.
  assert (Hv : isVisibleCharacter c = true <-> 0x21 <= c <= 0x7E).
  { rewrite (isVisibleCharacter_range c H0), andb_true_iff.
    rewrite Z.leb_le, Z.leb_le. reflexivity. }
  split; [exact Hv|]. split.
  - rewrite <- Hv. unfold isVisibleCharacter. rewrite orb_true_iff.
    reflexivity.
  - intros [Ht Hd]. apply token_not_delimiter in Hd. congruence.
Qed.

Lemma X1_visible_characters_witness :
  (isVisibleCharacter 0x3B = true <-> 0x21 <= 0x3B <= 0x7E)
  /\ (isTokenCharacter 0x3B = true \/ isDelimiter 0x3B = true
      <-> 0x21 <= 0x3B <= 0x7E)
  /\ ~ (isTokenCharacter 0x3B = true /\ isDelimiter 0x3B = true).
Proof. apply (X1_visible_characters 0x3B). lia. Defined.

Lemma isQuotedPairSecondOctet_range (c : char16_t) :
  0 <= c ->
  isQuotedPairSecondOctet c
  = (c =? 0x09) || ((0x20 <=? c) && (c <=? 0x7E))
    || ((0x80 <=? c) && (c <=? 0xFF)).
Proof.
  intros H0. unfold isQuotedPairSecondOctet.
  rewrite (isVisibleCharacter_range c H0).
  unfold isWhitespace, isOBSText, isInRange. decide_cmp.
Qed.

Lemma isQuotedTextCharacter_escapable (c : char16_t) :
  0 <= c ->
  isQuotedTextCharacter c
  = isQuotedPairSecondOctet c
    && negb (c =? DQUOTE) && negb (c =? BACKSLASH).
Proof.
  intros H0. rewrite (isQuotedPairSecondOctet_range c H0).
  unfold isQuotedTextCharacter, isWhitespace, isOBSText, isInRange,
    DQUOTE, BACKSLASH.
  decide_cmp.
Qed.

Lemma isCommentText_escapable (c : char16_t) :
  0 <= c ->
  isCommentText c
  = isQuotedPairSecondOctet c
    && negb (c =? LPAREN) && negb (c =? RPAREN) && negb (c =? BACKSLASH).
Proof.
  intros H0. rewrite (isQuotedPairSecondOctet_range c H0).
  unfold isCommentText, isWhitespace, isOBSText, isInRange,
    LPAREN, RPAREN, BACKSLASH.
  decide_cmp.
Qed.

(** X2: what may follow a backslash is tab, 0x20..0x7E and 0x80..0xFF.
    The characters a quoted string takes unescaped are those same
    characters less the double quote and the backslash, and the ones a
    comment takes unescaped are those less the two parentheses and the
    backslash: everything allowed bare may also be escaped, and escaping
    adds only the characters with a special meaning. *)
Theorem X2_escapable_characters (c : char16_t) :
  0 <= c ->
  (isQuotedPairSecondOctet c = true <->
   c = 0x09 \/ 0x20 <= c <= 0x7E \/ 0x80 <= c <= 0xFF)
  /\ (isQuotedTextCharacter c = true <->
      isQuotedPairSecondOctet c = true /\ c <> DQUOTE /\ c <> BACKSLASH)
  /\ (isCommentText c = true <->
      isQuotedPairSecondOctet c = true
      /\ c <> LPAREN /\ c <> RPAREN /\ c <> BACKSLASH).
Proof.
  intros H0. split; [|split].
  - rewrite (isQuotedPairSecondOctet_range c H0).
    rewrite !orb_true_iff, !andb_true_iff, Z.eqb_eq, !Z.leb_le. tauto.
  - rewrite (isQuotedTextCharacter_escapable c H0).
    rewrite !andb_true_iff, !negb_true_iff, !Z.eqb_neq. tauto.
  - rewrite (isCommentText_escapable c H0).
    rewrite !andb_true_iff, !negb_true_iff, !Z.eqb_neq. tauto.
Qed.

Lemma X2_escapable_characters_witness :
  (isQuotedPairSecondOctet DQUOTE = true <->
   DQUOTE = 0x09 \/ 0x20 <= DQUOTE <= 0x7E \/ 0x80 <= DQUOTE <= 0xFF)
  /\ (isQuotedTextCharacter DQUOTE = true <->
      isQuotedPairSecondOctet DQUOTE = true
      /\ DQUOTE <> DQUOTE /\ DQUOTE <> BACKSLASH)
  /\ (isCommentText DQUOTE = true <->
      isQuotedPairSecondOctet DQUOTE = true
      /\ DQUOTE <> LPAREN /\ DQUOTE <> RPAREN /\ DQUOTE <> BACKSLASH).
Proof. apply (X2_escapable_characters DQUOTE). unfold DQUOTE. lia. Defined.

(** ** The scan, prefix by prefix *)

(** Induction that follows the scan: one character at a time, or two
    when the first is a backslash. *)
Lemma scan_ind (P : list char16_t -> Prop) :
  P [] ->
  (forall c rest,
     P rest ->
     (forall c2 rest', rest = c2 :: rest' -> P rest') ->
     P (c :: rest)) ->
  forall rest, P rest.
Proof.
  intros Hnil Hcons rest.
  assert (H : P rest /\ (forall c2 rest', rest = c2 :: rest' -> P rest')).
  { induction rest as [|c rest [IH1 IH2]].
    - split; [exact Hnil | discriminate].
    - split; [apply Hcons; assumption|].
      intros c2 rest' [= <- <-]. exact IH1. }
  exact (proj1 H).
Qed.

(** Case analysis on one step of [scan] in a hypothesis and the goal. *)
Ltac scan_cases :=
  repeat match goal with
  | |- context [if ?b then _ else _] =>
      let E := fresh "E" in destruct b eqn:E
  | H : context [if ?b then _ else _] |- _ =>
      let E := fresh "E" in destruct b eqn:E
  end.

(** The scan goes left to right: once a prefix has been passed without
    a return, what follows is scanned from the locals the prefix left. *)
Lemma scan_app (a : list char16_t) :
  forall l l' rest,
    scan l a = Finished l' ->
    scan l (a ++ rest) = scan l' rest.
Proof.
  induction a as [|c a IH1 IH2] using scan_ind; intros l l' rest H.
  - injection H as <-. reflexivity.
  - cbn [app]. cbn [scan] in H |- *.
    destruct (state l).
    + scan_cases; try discriminate; apply IH1; exact H.
    + scan_cases; apply IH1; exact H.
    + destruct (c =? DQUOTE); [apply IH1; exact H|].
      destruct (c =? BACKSLASH).
      { destruct a as [|c2 a']; [discriminate|]. cbn [app].
        destruct (negb (isQuotedPairSecondOctet c2)); [discriminate|].
        apply (IH2 c2 a' eq_refl). exact H. }
      destruct (negb (isQuotedTextCharacter c)); [discriminate|].
      apply IH1; exact H.
    + destruct (c =? LPAREN); [apply IH1; exact H|].
      destruct (c =? RPAREN).
      { cbv zeta in H |- *. scan_cases; apply IH1; exact H. }
      destruct (c =? BACKSLASH).
      { destruct a as [|c2 a']; [discriminate|]. cbn [app].
        destruct (negb (isQuotedPairSecondOctet c2)); [discriminate|].
        apply (IH2 c2 a' eq_refl). exact H. }
      destruct (negb (isCommentText c)); [discriminate|].
      apply IH1; exact H.
Qed.

(** The locals with which the loop leaves through its condition are
    reached at index [value.length()]. *)
Lemma loop_finished_reachable (value : list char16_t) fuel :
  forall i l l',
    reachable value i l ->
    loop fuel value i l = Ok (Finished l') ->
    reachable value (length value) l'.
Proof.
  induction fuel as [|fuel IH]; intros i l l' Hr; cbn [loop];
    [discriminate|].
  destruct (Nat.ltb_spec i (length value)) as [Hlt|Hge].
  - destruct (body value i l) as [[i' l1|b]| |] eqn:Hb; cbn [bind];
      try discriminate.
    apply IH. eapply reachable_continue; eauto.
  - intros [= <-]. pose proof (reachable_index _ _ _ Hr).
    replace (length value) with i by lia. exact Hr.
Qed.

(** An accepted value leaves the scanner between segments or inside a
    token, with the depth counter back at zero. *)
Lemma accepted_final (value : list char16_t) :
  Z.of_nat (length value) < SIZE_MOD ->
  isValidValue value = Ok true ->
  scan initial value = Finished between_segments
  \/ scan initial value = Finished after_token.
Proof.
  intros Hlen H.
  pose proof (loop_from_start value) as Hloop.
  rewrite isValidValue_scan in H. injection H as H.
  destruct (scan initial value) as [b|l] eqn:Hs.
  - cbn in H. subst b. apply loop_returned_false in Hloop. discriminate.
  - pose proof (loop_finished_reachable _ _ _ _ _
                  (reachable_initial value) Hloop) as Hr.
    destruct (depth_tracks_state_reachable _ _ _ Hlen Hr) as [Hiff Hrange].
    destruct l as [s d h]. cbn [exit_value] in H. unfold final in H.
    cbn [state commentDepth hadNonWhitespace] in *.
    assert (d = 0).
    { destruct (Z.ltb_spec 0 d) as [Hpos|?]; [|lia].
      apply Hiff in Hpos. subst s. discriminate. }
    subst d. destruct s; try discriminate; subst h; [left | right];
      reflexivity.
Qed.

(** ** Values built from segments *)

Lemma scan_after_valid (a b : list char16_t) (w : char16_t) :
  Z.of_nat (length a) < SIZE_MOD ->
  isValidValue a = Ok true ->
  isWhitespace w = true ->
  scan initial (a ++ w :: b) = scan between_segments b.
Proof.
  intros Hlen Ha Hw.
  destruct (accepted_final a Hlen Ha) as [H|H];
    rewrite (scan_app _ _ _ _ H).
  - cbn [scan]. cbn [state between_segments]. rewrite Hw. reflexivity.
  - rewrite scan_token_end
      by (reflexivity || apply whitespace_not_token; assumption).
    reflexivity.
Qed.

Lemma accepted_between_segments (rest : list char16_t) :
  exit_value (scan between_segments rest) = true <->
  Forall (fun w => isWhitespace w = true) rest
  \/ isValidValue rest = Ok true.
Proof.
  rewrite scan_between_segments, orb_true_iff, forallb_whitespace.
  rewrite isValidValue_scan.
  split; (intros [H|H]; [left; exact H | right]).
  - rewrite H. reflexivity.
  - injection H as H. exact H.
Qed.

(** X3: after an accepted value and one whitespace character the scanner
    stands between segments with nothing pending: the joined value is
    accepted exactly when what follows is all whitespace or is itself an
    accepted value.  So accepted values joined by a space or a tab are
    accepted. *)
Theorem X3_values_joined_by_whitespace
    (a b : list char16_t) (w : char16_t) :
  Z.of_nat (length a) < SIZE_MOD ->
  isValidValue a = Ok true ->
  isWhitespace w = true ->
  (isValidValue (a ++ w :: b) = Ok true <->
   Forall (fun c => isWhitespace c = true) b \/ isValidValue b = Ok true).
Proof.
  intros Hlen Ha Hw.
  rewrite <- accepted_between_segments.
  rewrite isValidValue_scan, (scan_after_valid a b w Hlen Ha Hw).
  split; [intros [= H]; exact H | intros ->; reflexivity].
Qed.

Lemma X3_values_joined_by_whitespace_witness :
  isValidValue ((DQUOTE :: str "a" ++ [DQUOTE]) ++ 0x20 :: str "(b) c")
  = Ok true.
Proof.
  apply (X3_values_joined_by_whitespace
           (DQUOTE :: str "a" ++ [DQUOTE]) (str "(b) c") 0x20);
    [reflexivity | reflexivity | reflexivity | right; reflexivity].
Defined.

Lemma quoted_text_not_special (c : char16_t) :
  isQuotedTextCharacter c = true ->
  (c =? DQUOTE) = false /\ (c =? BACKSLASH) = false.
Proof.
  intros H. split.
  - destruct (Z.eqb_spec c DQUOTE) as [->|]; [discriminate H | reflexivity].
  - destruct (Z.eqb_spec c BACKSLASH) as [->|]; [discriminate H | reflexivity].
Qed.

Lemma comment_text_not_special (c : char16_t) :
  isCommentText c = true ->
  (c =? LPAREN) = false /\ (c =? RPAREN) = false
  /\ (c =? BACKSLASH) = false.
Proof.
  intros H. repeat split.
  - destruct (Z.eqb_spec c LPAREN) as [->|]; [discriminate H | reflexivity].
  - destruct (Z.eqb_spec c RPAREN) as [->|]; [discriminate H | reflexivity].
  - destruct (Z.eqb_spec c BACKSLASH) as [->|]; [discriminate H | reflexivity].
Qed.

Lemma scan_quoted_content (body : list char16_t) :
  quoted_content body ->
  forall l rest,
    state l = QuotedString ->
    scan l (body ++ rest) = scan l rest.
Proof.
  induction 1 as [|c body Hc _ IH|c body Hc _ IH]; intros l rest Hs.
  - reflexivity.
  - destruct (quoted_text_not_special c Hc) as [Hq Hb].
    cbn [app scan]. rewrite Hs, Hq, Hb, Hc. cbn [negb]. apply IH. exact Hs.
  - cbn [app scan]. rewrite Hs.
    change (BACKSLASH =? DQUOTE) with false. rewrite Z.eqb_refl, Hc.
    cbn [negb]. apply IH. exact Hs.
Qed.

Lemma set_commentDepth_twice d1 d2 l :
  set_commentDepth d2 (set_commentDepth d1 l) = set_commentDepth d2 l.
Proof. reflexivity. Qed.

Lemma state_set_commentDepth d l : state (set_commentDepth d l) = state l.
Proof. reflexivity. Qed.

Lemma scan_comment_content (body : list char16_t) :
  comment_content body ->
  forall l rest,
    state l = Comment ->
    0 < commentDepth l ->
    commentDepth l + Z.of_nat (length body) < SIZE_MOD ->
    scan l (body ++ rest) = scan l rest.
Proof.
  induction 1 as [|c body Hc _ IH|c body Hc _ IH|inner body _ IHi _ IHb];
    intros l rest Hs Hd Hmax.
  - reflexivity.
  - destruct (comment_text_not_special c Hc) as (Ho & Hcl & Hb).
    cbn [app scan]. rewrite Hs, Ho, Hcl, Hb, Hc. cbn [negb].
    apply IH; [exact Hs | exact Hd |]. cbn [length] in Hmax. lia.
  - cbn [app scan]. rewrite Hs.
    change (BACKSLASH =? LPAREN) with false.
    change (BACKSLASH =? RPAREN) with false.
    rewrite Z.eqb_refl, Hc. cbn [negb].
    apply IH; [exact Hs | exact Hd |]. cbn [length] in Hmax. lia.
  - cbn [length] in Hmax. rewrite length_app in Hmax. cbn [length] in Hmax.
    cbn [app]. rewrite <- app_assoc. cbn [app scan]. rewrite Hs.
    rewrite Z.eqb_refl.
    rewrite wrap_size_t_small by lia.
    rewrite IHi by depth_side.
    cbn [scan]. rewrite state_set_commentDepth, Hs.
    change (RPAREN =? LPAREN) with false. rewrite Z.eqb_refl.
    cbv zeta. rewrite set_commentDepth_twice.
    cbn [commentDepth set_commentDepth].
    rewrite wrap_size_t_small by lia.
    destruct (Z.eqb_spec (commentDepth l + 1 - 1) 0) as [E|_]; [lia|].
    replace (commentDepth l + 1 - 1) with (commentDepth l) by lia.
    fold (set_commentDepth (commentDepth l) l).
    rewrite set_commentDepth_same.
    apply IHb; [exact Hs | exact Hd | lia].
Qed.

Lemma scan_quote_start (tail : list char16_t) l :
  state l = OptionalWhitespace ->
  scan l (DQUOTE :: tail)
  = scan (set_state QuotedString (set_hadNonWhitespace true l)) tail.
Proof. intros Hs. cbn [scan]. rewrite Hs. reflexivity. Qed.

Lemma scan_quote_end (tail : list char16_t) l :
  state l = QuotedString ->
  scan l (DQUOTE :: tail) = scan (set_state OptionalWhitespace l) tail.
Proof. intros Hs. cbn [scan]. rewrite Hs. reflexivity. Qed.

Lemma Ok_true_iff (b : bool) : Ok b = Ok true <-> b = true.
Proof. split; [intros [= H]; exact H | intros ->; reflexivity]. Qed.

(** X4: a double quote, then any run of quoted-text characters and
    backslash pairs, then a double quote, is passed over as one segment
    and leaves the scanner between segments: the value is accepted
    exactly when what follows the closing quote is all whitespace or an
    accepted value.  In particular the quoted string alone is accepted,
    and a delimiter such as a semicolon directly after the closing quote
    rejects the value. *)
Theorem X4_quoted_string_segment (body rest : list char16_t) :
  quoted_content body ->
  (isValidValue (DQUOTE :: body ++ DQUOTE :: rest) = Ok true <->
   Forall (fun c => isWhitespace c = true) rest
   \/ isValidValue rest = Ok true)
  /\ isValidValue (DQUOTE :: body ++ [DQUOTE]) = Ok true
  /\ (forall c tail,
        isDelimiter c = true -> c <> DQUOTE -> c <> LPAREN ->
        isValidValue (DQUOTE :: body ++ DQUOTE :: c :: tail) = Ok false).
Proof.
  intros Hbody.
  assert (Hscan : forall rest,
    scan initial (DQUOTE :: body ++ DQUOTE :: rest)
    = scan between_segments rest).
  { intros r. rewrite scan_quote_start by reflexivity.
    rewrite (scan_quoted_content body Hbody) by reflexivity.
    rewrite scan_quote_end by reflexivity. reflexivity. }
  split; [|split].
  - rewrite isValidValue_scan, Hscan, Ok_true_iff.
    apply accepted_between_segments.
  - rewrite isValidValue_scan, Hscan. reflexivity.
  - intros c tail Hd Hq Hp.
    rewrite isValidValue_scan, Hscan. cbn [scan state between_segments].
    assert (Hw : isWhitespace c = false).
    { unfold isWhitespace.
      destruct (Z.eqb_spec c 0x20) as [->|_]; [discriminate Hd|].
      destruct (Z.eqb_spec c 0x09) as [->|_]; [discriminate Hd|].
      reflexivity. }
    rewrite Hw, (token_not_delimiter c Hd).
    apply Z.eqb_neq in Hq, Hp. rewrite Hq, Hp. reflexivity.
Qed.

Lemma X4_quoted_string_segment_witness :
  isValidValue (DQUOTE :: (str "a" ++ [BACKSLASH; DQUOTE] ++ str "b")
                  ++ [DQUOTE]) = Ok true.
Proof.
  apply (proj1 (proj2 (X4_quoted_string_segment
                         (str "a" ++ [BACKSLASH; DQUOTE] ++ str "b") []
                         ltac:(apply quoted_text; [reflexivity|];
                               apply quoted_pair; [reflexivity|];
                               apply quoted_text; [reflexivity|];
                               apply quoted_nil)))).
Defined.

Lemma scan_comment_end (tail : list char16_t) l :
  state l = Comment ->
  commentDepth l = 1 ->
  scan l (RPAREN :: tail)
  = scan (set_state OptionalWhitespace (set_commentDepth 0 l)) tail.
Proof. intros Hs Hd. cbn [scan]. rewrite Hs, Hd. reflexivity. Qed.

(** X5: an opening parenthesis, then any run of comment text, backslash
    pairs and properly nested comments, then a closing parenthesis, is
    passed over as one segment, whatever the nesting depth a [size_t]
    can count: the value is accepted exactly when what follows is all
    whitespace or an accepted value, and the comment alone is
    accepted. *)
Theorem X5_comment_segment (body rest : list char16_t) :
  comment_content body ->
  1 + Z.of_nat (length body) < SIZE_MOD ->
  (isValidValue (LPAREN :: body ++ RPAREN :: rest) = Ok true <->
   Forall (fun c => isWhitespace c = true) rest
   \/ isValidValue rest = Ok true)
  /\ isValidValue (LPAREN :: body ++ [RPAREN]) = Ok true.
Proof.
  intros Hbody Hmax.
  assert (Hscan : forall rest,
    scan initial (LPAREN :: body ++ RPAREN :: rest)
    = scan between_segments rest).
  { intros r. rewrite scan_comment_start by reflexivity.
    change (wrap_size_t (commentDepth initial + 1)) with 1.
    rewrite (scan_comment_content body Hbody) by depth_side.
    rewrite scan_comment_end by reflexivity. reflexivity. }
  split.
  - rewrite isValidValue_scan, Hscan, Ok_true_iff.
    apply accepted_between_segments.
  - rewrite isValidValue_scan, Hscan. reflexivity.
Qed.

Lemma X5_comment_segment_witness :
  isValidValue (LPAREN :: (str "a" ++ LPAREN :: str "b" ++ RPAREN :: str "c")
                  ++ [RPAREN]) = Ok true.
Proof.
  apply (proj2 (X5_comment_segment
                  (str "a" ++ LPAREN :: str "b" ++ RPAREN :: str "c") []
                  ltac:(apply comment_text; [reflexivity|];
                        apply (comment_nested (str "b") (str "c"));
                        (apply comment_text; [reflexivity|];
                         apply comment_nil))
                  ltac:(reflexivity))).
Defined.

(** ** Characters outside the grammar *)

Lemma visible_in_range (c : char16_t) :
  0x21 <= c <= 0x7E -> isVisibleCharacter c = true.
Proof.
  intros H. rewrite isVisibleCharacter_range by lia.
  apply andb_true_iff. split; apply Z.leb_le; lia.
Qed.

(** A character that may not follow a backslash belongs to no class the
    scanner asks about, and is none of the characters it compares
    with. *)
Lemma not_escapable_no_class (c : char16_t) :
  isQuotedPairSecondOctet c = false ->
  isWhitespace c = false /\ isTokenCharacter c = false
  /\ isQuotedTextCharacter c = false /\ isCommentText c = false
  /\ (c =? DQUOTE) = false /\ (c =? LPAREN) = false
  /\ (c =? RPAREN) = false /\ (c =? BACKSLASH) = false.
Proof.
  intros H. unfold isQuotedPairSecondOctet in H.
  apply orb_false_elim in H. destruct H as [H Hobs].
  apply orb_false_elim in H. destruct H as [Hws Hvis].
  assert (Hout : ~ 0x21 <= c <= 0x7E).
  { intros Hr. rewrite (visible_in_range c Hr) in Hvis. discriminate. }
  unfold isVisibleCharacter in Hvis.
  apply orb_false_elim in Hvis. destruct Hvis as [Htok Hdel].
  split; [exact Hws|]. split; [exact Htok|].
  unfold isQuotedTextCharacter, isCommentText. rewrite Hws, Hobs.
  unfold isInRange, DQUOTE, LPAREN, RPAREN, BACKSLASH.
  repeat split; decide_cmp.
Qed.

(** X6: a character that is neither whitespace nor visible nor obs-text
    (a control character such as CR, LF or NUL, DEL, or a code unit from
    0x100 up) makes the validator reject when the scanner reads it in
    any state but [Token], and when it follows a backslash in a quoted
    string or comment. *)
Theorem X6_unclassified_character_rejected
    (before after : list char16_t) (c : char16_t) (l : locals) :
  loop (S (length before)) before 0 initial = Ok (Finished l) ->
  isQuotedPairSecondOctet c = false ->
  (state l <> Token ->
   isValidValue (before ++ c :: after) = Ok false)
  /\ (state l = QuotedString \/ state l = Comment ->
      isValidValue (before ++ BACKSLASH :: c :: after) = Ok false).
Proof.
  intros Hloop Hc.
  rewrite loop_from_start in Hloop. injection Hloop as Hscan.
  destruct (not_escapable_no_class c Hc)
    as (Hws & Htok & Hqt & Hct & Hq & Hlp & Hrp & Hbs).
  split.
  - intros Hs. rewrite isValidValue_scan, (scan_app _ _ _ _ Hscan).
    cbn [scan]. destruct (state l); [| congruence | |];
      rewrite ?Hws, ?Htok, ?Hq, ?Hlp, ?Hrp, ?Hbs, ?Hqt, ?Hct; reflexivity.
  - intros Hs. rewrite isValidValue_scan, (scan_app _ _ _ _ Hscan).
    cbn [scan].
    destruct Hs as [-> | ->]; cbn; rewrite Hc; reflexivity.
Qed.

Lemma X6_unclassified_character_rejected_witness :
  isValidValue ((DQUOTE :: str "a") ++ 0x0A :: str "b" ++ [DQUOTE])
  = Ok false.
Proof.
  apply (proj1 (X6_unclassified_character_rejected
                  (DQUOTE :: str "a") (str "b" ++ [DQUOTE]) 0x0A
                  {| state := QuotedString; commentDepth := 0;
                     hadNonWhitespace := true |}
                  ltac:(reflexivity) ltac:(reflexivity))).
  discriminate.
Defined.

(** ** Unclosed segments *)

Lemma scan_quote_never_closed (body : list char16_t) :
  forall l,
    state l = QuotedString ->
    Forall (fun c => c <> DQUOTE) body ->
    exit_value (scan l body) = false.
Proof.
  induction body as [|c body IH1 IH2] using scan_ind; intros l Hs Hall.
  - cbn. unfold final. rewrite Hs. reflexivity.
  - inversion Hall as [|? ? Hc Hall']; subst.
    apply Z.eqb_neq in Hc. cbn [scan]. rewrite Hs, Hc.
    destruct (c =? BACKSLASH).
    + destruct body as [|c2 body']; [reflexivity|].
      destruct (negb (isQuotedPairSecondOctet c2)); [reflexivity|].
      apply (IH2 c2 body' eq_refl); [exact Hs|].
      inversion Hall'; assumption.
    + destruct (negb (isQuotedTextCharacter c)); [reflexivity|].
      apply IH1; assumption.
Qed.

Lemma scan_comment_never_closed (body : list char16_t) :
  forall l,
    state l = Comment ->
    Forall (fun c => c <> RPAREN) body ->
    exit_value (scan l body) = false.
Proof.
  induction body as [|c body IH1 IH2] using scan_ind; intros l Hs Hall.
  - cbn. unfold final. rewrite Hs. reflexivity.
  - inversion Hall as [|? ? Hc Hall']; subst.
    apply Z.eqb_neq in Hc. cbn [scan]. rewrite Hs, Hc.
    destruct (c =? LPAREN); [apply IH1; [exact Hs | exact Hall']|].
    destruct (c =? BACKSLASH).
    + destruct body as [|c2 body']; [reflexivity|].
      destruct (negb (isQuotedPairSecondOctet c2)); [reflexivity|].
      apply (IH2 c2 body' eq_refl); [exact Hs|].
      inversion Hall'; assumption.
    + destruct (negb (isCommentText c)); [reflexivity|].
      apply IH1; assumption.
Qed.

(** X7: once the scanner is inside a quoted string, a value with no
    further double quote is rejected, and once it is inside a comment, a
    value with no further closing parenthesis is rejected, whatever else
    the remainder holds. *)
Theorem X7_unclosed_segment_rejected
    (before after : list char16_t) (l : locals) :
  loop (S (length before)) before 0 initial = Ok (Finished l) ->
  (state l = QuotedString ->
   Forall (fun c => c <> DQUOTE) after ->
   isValidValue (before ++ after) = Ok false)
  /\ (state l = Comment ->
      Forall (fun c => c <> RPAREN) after ->
      isValidValue (before ++ after) = Ok false).
Proof.
  intros Hloop.
  rewrite loop_from_start in Hloop. injection Hloop as Hscan.
  split; intros Hs Hall;
    rewrite isValidValue_scan, (scan_app _ _ _ _ Hscan); f_equal.
  - apply scan_quote_never_closed; assumption.
  - apply scan_comment_never_closed; assumption.
Qed.

Lemma X7_unclosed_segment_rejected_witness :
  isValidValue (str "a (" ++ str "b (c") = Ok false.
Proof.
  apply (proj2 (X7_unclosed_segment_rejected (str "a (") (str "b (c")
                  {| state := Comment; commentDepth := 1;
                     hadNonWhitespace := true |}
                  ltac:(reflexivity)));
    [reflexivity | repeat constructor; discriminate].
Defined.

(** ** Whitespace around a value *)

Lemma whitespace_cases (w : char16_t) :
  isWhitespace w = true -> w = 0x20 \/ w = 0x09.
Proof.
  unfold isWhitespace. intros H. apply orb_prop in H.
  destruct H as [H|H]; apply Z.eqb_eq in H; auto.
Qed.

Lemma scan_trailing_whitespace_1 (v : list char16_t) (w : char16_t) :
  isWhitespace w = true ->
  forall l, exit_value (scan l (v ++ [w])) = exit_value (scan l v).
Proof.
  intros Hw.
  assert (Hone : forall l, exit_value (scan l [w]) = final l).
  { intros [[] d h]; destruct (whitespace_cases w Hw) as [-> | ->];
      reflexivity. }
  assert (Hesc : isQuotedPairSecondOctet w = true).
  { unfold isQuotedPairSecondOctet. rewrite Hw. reflexivity. }
  induction v as [|c v IH1 IH2] using scan_ind; intros l.
  - apply Hone.
  - cbn [app scan].
    destruct (state l) eqn:Hs.
    + scan_cases; try reflexivity; apply IH1.
    + scan_cases; apply IH1.
    + destruct (c =? DQUOTE); [apply IH1|].
      destruct (c =? BACKSLASH).
      { destruct v as [|c2 v'].
        - cbn [app]. rewrite Hesc. cbn. unfold final. rewrite Hs.
          reflexivity.
        - cbn [app].
          destruct (negb (isQuotedPairSecondOctet c2)); [reflexivity|].
          apply (IH2 c2 v' eq_refl). }
      destruct (negb (isQuotedTextCharacter c)); [reflexivity|]. apply IH1.
    + destruct (c =? LPAREN); [apply IH1|].
      destruct (c =? RPAREN).
      { cbv zeta. scan_cases; apply IH1. }
      destruct (c =? BACKSLASH).
      { destruct v as [|c2 v'].
        - cbn [app]. rewrite Hesc. cbn. unfold final. rewrite Hs.
          reflexivity.
        - cbn [app].
          destruct (negb (isQuotedPairSecondOctet c2)); [reflexivity|].
          apply (IH2 c2 v' eq_refl). }
      destruct (negb (isCommentText c)); [reflexivity|]. apply IH1.
Qed.

Lemma scan_trailing_whitespace (trail : list char16_t) :
  Forall (fun w => isWhitespace w = true) trail ->
  forall v l, exit_value (scan l (v ++ trail)) = exit_value (scan l v).
Proof.
  induction 1 as [|w trail Hw _ IH]; intros v l.
  - rewrite app_nil_r. reflexivity.
  - change (w :: trail) with ([w] ++ trail). rewrite app_assoc, IH.
    apply scan_trailing_whitespace_1. exact Hw.
Qed.

Lemma isValidValue_padded (lead v trail : list char16_t) :
  Forall (fun w => isWhitespace w = true) lead ->
  Forall (fun w => isWhitespace w = true) trail ->
  isValidValue (lead ++ v ++ trail) = isValidValue v.
Proof.
  intros Hl Ht. rewrite !isValidValue_scan. f_equal.
  rewrite scan_whitespace by (reflexivity || assumption).
  apply scan_trailing_whitespace. exact Ht.
Qed.

Lemma isValidValue_trim (v : list char16_t) :
  isValidValue (trim isTabOrSpace v) = isValidValue v.
Proof.
  destruct (trim_decomp isTabOrSpace v) as (pre & suf & Hv & Hpre & Hsuf).
  rewrite Hv at 2. symmetry.
  apply isValidValue_padded; apply forallb_whitespace; assumption.
Qed.

(** X8: whitespace before and after a value does not change the
    validator's answer; so the answer for a value is the answer for the
    value trimmed, and the trimming in [create] decides only what is
    stored, never whether the value is valid. *)
Theorem X8_whitespace_around_value (lead v trail : list char16_t) :
  Forall (fun w => isWhitespace w = true) lead ->
  Forall (fun w => isWhitespace w = true) trail ->
  isValidValue (lead ++ v ++ trail) = isValidValue v
  /\ isValidValue (trim isTabOrSpace (lead ++ v ++ trail)) = isValidValue v.
Proof.
  intros Hl Ht. split.
  - apply isValidValue_padded; assumption.
  - rewrite isValidValue_trim. apply isValidValue_padded; assumption.
Qed.

Lemma X8_whitespace_around_value_witness :
  isValidValue ([0x09; 0x20] ++ str "a (b" ++ [0x20]) = isValidValue (str "a (b")
  /\ isValidValue (trim isTabOrSpace ([0x09; 0x20] ++ str "a (b" ++ [0x20]))
     = isValidValue (str "a (b").
Proof.
  apply (X8_whitespace_around_value [0x09; 0x20] (str "a (b") [0x20]);
    repeat constructor.
Defined.

(** ** Names as values *)

Lemma trim_stable {A} (p : A -> bool) (s : list A) :
  Forall (fun c => p c = false) s -> trim p s = s.
Proof.
  intros H. unfold trim.
  assert (Hd : forall t, Forall (fun c => p c = false) t -> dropWhile p t = t).
  { intros t Ht. apply dropWhile_stable. destruct Ht; [exact I | assumption]. }
  rewrite (Hd s H). rewrite Hd by (apply Forall_rev; exact H).
  apply rev_involutive.
Qed.

Lemma isValidName_tokens (n : list char16_t) :
  isValidName n = true ->
  n <> [] /\ Forall (fun c => isTokenCharacter c = true) n.
Proof.
  unfold isValidName. destruct n as [|c n]; [discriminate|].
  cbn [length Nat.eqb]. rewrite isValidName_loop_Forall.
  intros H. split; [discriminate | exact H].
Qed.

Lemma isValidName_value (n : list char16_t) :
  isValidName n = true -> isValidValue n = Ok true.
Proof.
  intros H. apply isValidName_tokens in H. destruct H as [Hne Htok].
  destruct n as [|c n]; [congruence|].
  inversion Htok as [|? ? Hc Hn]; subst.
  rewrite isValidValue_scan.
  rewrite scan_token_start by (reflexivity || assumption).
  rewrite <- (app_nil_r n).
  rewrite scan_token_run by (reflexivity || assumption). reflexivity.
Qed.

Lemma isValidName_trim (n : list char16_t) :
  isValidName n = true -> trim isTabOrSpace n = n.
Proof.
  intros H. apply isValidName_tokens in H. destruct H as [_ Htok].
  apply trim_stable. eapply Forall_impl; [|exact Htok].
  intros c Hc. apply (token_not_whitespace c Hc).
Qed.

(** X9: every valid name is also a valid value, and holds no space or
    tab, so trimming leaves it as it is; with a valid name [create]
    stores the name it was given and succeeds exactly when the value is
    valid. *)
Theorem X9_valid_name_is_valid_value (n : list char16_t) :
  isValidName n = true ->
  isValidValue n = Ok true
  /\ Forall (fun c => isWhitespace c = false) n
  /\ trim isTabOrSpace n = n
  /\ (forall v,
        isValidValue v = Ok true ->
        create n v
        = Ok (Some {| name := n; value := trim isTabOrSpace v |}))
  /\ (forall v, isValidValue v = Ok false -> create n v = Ok None).
Proof.
  intros H. pose proof (isValidName_value n H) as Hv.
  pose proof (isValidName_trim n H) as Ht.
  split; [exact Hv|]. split.
  { destruct (isValidName_tokens n H) as [_ Htok].
    eapply Forall_impl; [|exact Htok].
    intros c Hc. apply (token_not_whitespace c Hc). }
  split; [exact Ht|].
  split; intros v Hvv; rewrite <- isValidValue_trim in Hvv;
    rewrite isValidValue_scan in Hvv; injection Hvv as Hvv;
    rewrite create_spec, Ht, H, Hvv; reflexivity.
Qed.

Lemma X9_valid_name_is_valid_value_witness :
  isValidValue (str "Content-Type") = Ok true
  /\ Forall (fun c => isWhitespace c = false) (str "Content-Type")
  /\ trim isTabOrSpace (str "Content-Type") = str "Content-Type"
  /\ (forall v,
        isValidValue v = Ok true ->
        create (str "Content-Type") v
        = Ok (Some {| name := str "Content-Type";
                      value := trim isTabOrSpace v |}))
  /\ (forall v,
        isValidValue v = Ok false -> create (str "Content-Type") v = Ok None).
Proof.
  apply (X9_valid_name_is_valid_value (str "Content-Type")). reflexivity.
Defined.

(** ** What [create] returns *)

Lemma trim_head {A} (p : A -> bool) (s : list A) c t :
  trim p s = c :: t -> p c = false.
Proof.
  unfold trim. intros H.
  destruct (dropWhile_decomp p (rev (dropWhile p s))) as [suf [Hd _]].
  apply (f_equal (@rev A)) in Hd.
  rewrite rev_involutive, rev_app_distr, H in Hd.
  eapply dropWhile_head. exact Hd.
Qed.

Lemma trim_last {A} (p : A -> bool) (s : list A) c t :
  trim p s = t ++ [c] -> p c = false.
Proof.
  unfold trim. intros H.
  apply (f_equal (@rev A)) in H.
  rewrite rev_involutive, rev_app_distr in H. cbn in H.
  eapply dropWhile_head. exact H.
Qed.

(** X10: [create] returns a field exactly when the trimmed name passes
    the name validator and the value, trimmed or not, passes the value
    validator; otherwise it returns no field. *)
Theorem X10_create_succeeds_iff (n v : list char16_t) :
  ((exists f, create n v = Ok (Some f)) <->
   isValidName (trim isTabOrSpace n) = true /\ isValidValue v = Ok true)
  /\ (create n v = Ok None <->
      isValidName (trim isTabOrSpace n) = false
      \/ isValidValue v = Ok false).
Proof.
  rewrite create_spec, <- (isValidValue_trim v), isValidValue_scan.
  destruct (isValidName (trim isTabOrSpace n));
    destruct (exit_value (scan initial (trim isTabOrSpace v)));
    cbn [andb]; (split; [split; [intros [f Hf] | intros [Hn Hv]]
                        | split; [intros Hnone | intros [Hn|Hv]]]);
    try discriminate; eauto.
Qed.

(** X11: a field that [create] returns holds a valid name and a valid
    value, neither of which starts or ends with a space or tab, and the
    value is not empty; handing the stored name and value back to
    [create] returns the same field. *)
Theorem X11_created_field_invariant (n v : list char16_t) f :
  create n v = Ok (Some f) ->
  isValidName (name f) = true
  /\ isValidValue (value f) = Ok true
  /\ value f <> []
  /\ (forall c t, name f = c :: t \/ name f = t ++ [c] \/
                  value f = c :: t \/ value f = t ++ [c] ->
                  isTabOrSpace c = false)
  /\ create (name f) (value f) = Ok (Some f).
Proof.
  intros H. pose proof H as H'. rewrite create_spec in H'.
  destruct (isValidName (trim isTabOrSpace n)) eqn:Hn;
    [|discriminate].
  destruct (exit_value (scan initial (trim isTabOrSpace v))) eqn:Hv;
    [|discriminate].
  cbn [andb] in H'. injection H' as <-. cbn [name value].
  assert (Hvalid : isValidValue (trim isTabOrSpace v) = Ok true)
    by (rewrite isValidValue_scan, Hv; reflexivity).
  split; [exact Hn|]. split; [exact Hvalid|]. split.
  { intros E. rewrite E in Hv. discriminate. }
  split.
  { intros c t [E|[E|[E|E]]];
      solve [eapply trim_head; exact E | eapply trim_last; exact E]. }
  rewrite create_spec, !trim_idempotent, Hn, Hv. reflexivity.
Qed.

Lemma X11_created_field_invariant_witness :
  let f := {| name := str "Accept"; value := str "text/html" |} in
  isValidName (name f) = true
  /\ isValidValue (value f) = Ok true
  /\ value f <> []
  /\ (forall c t, name f = c :: t \/ name f = t ++ [c] \/
                  value f = c :: t \/ value f = t ++ [c] ->
                  isTabOrSpace c = false)
  /\ create (name f) (value f) = Ok (Some f).
Proof.
  apply (X11_created_field_invariant (str " Accept") (str "text/html  ")).
  reflexivity.
Defined.

(** ** The non-whitespace flag *)

Lemma had_tracks_prefix (value : list char16_t) i l :
  reachable value i l ->
  hadNonWhitespace l = negb (forallb isWhitespace (take i value))
  /\ (hadNonWhitespace l = false -> state l = OptionalWhitespace).
Proof.
  induction 1 as [|i l i' l' Hr [IH1 IH2] Hlt Hb].
  - split; [reflexivity | intros _; reflexivity].
  - destruct (lookup_lt_is_Some_2 value i Hlt) as [c Hc].
    pose proof (take_S_r value i c Hc) as Ht.
    destruct l as [s d h]. cbn [state hadNonWhitespace] in IH1, IH2.
    assert (Hh : s <> OptionalWhitespace -> h = true).
    { intros Hs. destruct h; [reflexivity|]. destruct (Hs (IH2 eq_refl)). }
    unfold body, quotedPair, read, bind in Hb. rewrite Hc in Hb.
    cbn [state commentDepth hadNonWhitespace] in Hb.
    destruct s; split_body; try discriminate;
      injection Hb as <- <-;
      unfold set_state, set_commentDepth, set_hadNonWhitespace;
      cbn [state commentDepth hadNonWhitespace];
      try rewrite Hh in * by discriminate;
      repeat match goal with
             | E : value !! S i = Some ?c2 |- _ =>
                 rewrite (take_S_r value (S i) c2 E); clear E
             end;
      rewrite Ht, ?forallb_app; cbn [forallb];
      repeat match goal with
             | E : isWhitespace _ = _ |- _ => rewrite E
             end;
      (split; [| try (intros _; reflexivity); try discriminate]);
      try (destruct (forallb isWhitespace (take i value));
           cbn in *; congruence).
Qed.

(** X12: [hadNonWhitespace] is unset exactly as long as every character
    passed so far is whitespace, and while it is unset the scanner is
    still in [OptionalWhitespace]. *)
Theorem X12_hadNonWhitespace_tracks_prefix (value : list char16_t) i l :
  reachable value i l ->
  (hadNonWhitespace l = false <->
   Forall (fun c => isWhitespace c = true) (take i value))
  /\ (hadNonWhitespace l = false -> state l = OptionalWhitespace).
Proof.
  intros Hr. destruct (had_tracks_prefix value i l Hr) as [H1 H2].
  split; [|exact H2].
  rewrite <- forallb_whitespace, H1.
  destruct (forallb isWhitespace (take i value)); cbn;
    split; congruence.
Qed.

Lemma X12_hadNonWhitespace_tracks_prefix_witness :
  let l := {| state := Token; commentDepth := 0; hadNonWhitespace := true |} in
  (hadNonWhitespace l = false <->
   Forall (fun c => isWhitespace c = true) (take 2 (str " ab")))
  /\ (hadNonWhitespace l = false -> state l = OptionalWhitespace).
Proof.
  apply (X12_hadNonWhitespace_tracks_prefix (str " ab") 2%nat).
  apply (reachable_continue _ 1%nat initial 1%nat);
    [ apply (reachable_continue _ 0%nat initial 0%nat);
        [ apply reachable_initial | simpl; lia | reflexivity ]
    | simpl; lia | reflexivity ].
Defined.

(** ** Where a value can start, and where stray characters can stand *)

Lemma accepted_first_character (v : list char16_t) :
  exit_value (scan initial v) = true ->
  exists lead c rest,
    v = lead ++ c :: rest
    /\ Forall (fun w => isWhitespace w = true) lead
    /\ (isTokenCharacter c = true \/ c = DQUOTE \/ c = LPAREN).
Proof.
  induction v as [|c v IH]; [discriminate|].
  cbn [scan]. cbn [state initial].
  destruct (isWhitespace c) eqn:Hw.
  - intros H. destruct (IH H) as (lead & c' & rest & -> & Hl & Hc).
    exists (c :: lead), c', rest.
    split; [reflexivity|]. split; [constructor; assumption | exact Hc].
  - intros H. exists [], c, v. split; [reflexivity|]. split; [constructor|].
    destruct (isTokenCharacter c); [left; reflexivity|].
    destruct (Z.eqb_spec c DQUOTE); [right; left; assumption|].
    destruct (Z.eqb_spec c LPAREN); [right; right; assumption|].
    discriminate H.
Qed.

(** X13: an accepted value has a first character that is not whitespace,
    and that character is a token character, a double quote or an
    opening parenthesis; a value that starts, after any whitespace, with
    another character is rejected. *)
Theorem X13_value_first_character (v : list char16_t) :
  isValidValue v = Ok true ->
  exists lead c rest,
    v = lead ++ c :: rest
    /\ Forall (fun w => isWhitespace w = true) lead
    /\ (isTokenCharacter c = true \/ c = DQUOTE \/ c = LPAREN).
Proof.
  rewrite isValidValue_scan. intros [= H].
  apply accepted_first_character. exact H.
Qed.

Lemma X13_value_first_character_witness :
  exists lead c rest,
    str " (a)" = lead ++ c :: rest
    /\ Forall (fun w => isWhitespace w = true) lead
    /\ (isTokenCharacter c = true \/ c = DQUOTE \/ c = LPAREN).
Proof. apply (X13_value_first_character (str " (a)")). reflexivity. Defined.

(** Close a goal that only says the state at hand is not [Token]. *)
Ltac other_state :=
  cbn [state set_state set_commentDepth set_hadNonWhitespace];
  solve [discriminate | intros; congruence].

Lemma scan_stray_after_token (before : list char16_t) :
  forall l c after,
    isQuotedPairSecondOctet c = false ->
    exit_value (scan l (before ++ c :: after)) = true ->
    (before = [] /\ state l = Token)
    \/ exists before' t,
         before = before' ++ [t] /\ isTokenCharacter t = true.
Proof.
  induction before as [|p before IH1 IH2] using scan_ind;
    intros l c after Hc H.
  - left. split; [reflexivity|].
    destruct (not_escapable_no_class c Hc)
      as (Hws & Htok & Hqt & Hct & Hq & Hlp & Hrp & Hbs).
    cbn [app scan] in H.
    destruct (state l); [| reflexivity | |];
      rewrite ?Hws, ?Htok, ?Hq, ?Hlp, ?Hrp, ?Hbs, ?Hqt, ?Hct in H;
      discriminate H.
  - right.
    assert (Hstep : forall l1,
      exit_value (scan l1 (before ++ c :: after)) = true ->
      (state l1 = Token -> isTokenCharacter p = true) ->
      exists before' t,
        p :: before = before' ++ [t] /\ isTokenCharacter t = true).
    { intros l1 H1 Hp.
      destruct (IH1 l1 c after Hc H1) as [[-> Hs]|(b' & t & -> & Ht)].
      - exists [], p. split; [reflexivity | apply Hp; exact Hs].
      - exists (p :: b'), t. split; [reflexivity | exact Ht]. }
    assert (Hpair : forall c2 before',
      before = c2 :: before' ->
      state l <> Token ->
      exit_value (scan l (before' ++ c :: after)) = true ->
      exists b' t,
        p :: before = b' ++ [t] /\ isTokenCharacter t = true).
    { intros c2 b' -> Hs H1.
      destruct (IH2 c2 b' eq_refl l c after Hc H1)
        as [[_ Hs']|(b'' & t & -> & Ht)]; [congruence|].
      exists (p :: c2 :: b''), t. split; [reflexivity | exact Ht]. }
    cbn [app scan] in H.
    destruct (state l) eqn:Hs.
    + destruct (isWhitespace p); [apply (Hstep _ H); other_state|].
      destruct (isTokenCharacter p) eqn:Hp;
        [apply (Hstep _ H); intros _; reflexivity|].
      destruct (p =? DQUOTE); [apply (Hstep _ H); other_state|].
      destruct (p =? LPAREN); [apply (Hstep _ H); other_state|].
      discriminate H.
    + destruct (isTokenCharacter p) eqn:Hp;
        apply (Hstep _ H); [intros _; reflexivity | other_state].
    + destruct (p =? DQUOTE); [apply (Hstep _ H); other_state|].
      destruct (p =? BACKSLASH).
      { destruct before as [|c2 b'].
        - cbn [app] in H. rewrite Hc in H. discriminate H.
        - cbn [app] in H.
          destruct (negb (isQuotedPairSecondOctet c2)); [discriminate H|].
          apply (Hpair c2 b' eq_refl); [other_state | exact H]. }
      destruct (negb (isQuotedTextCharacter p)); [discriminate H|].
      apply (Hstep _ H). other_state.
    + destruct (p =? LPAREN); [apply (Hstep _ H); other_state|].
      destruct (p =? RPAREN).
      { cbv zeta in H.
        destruct (commentDepth _ =? 0); apply (Hstep _ H); other_state. }
      destruct (p =? BACKSLASH).
      { destruct before as [|c2 b'].
        - cbn [app] in H. rewrite Hc in H. discriminate H.
        - cbn [app] in H.
          destruct (negb (isQuotedPairSecondOctet c2)); [discriminate H|].
          apply (Hpair c2 b' eq_refl); [other_state | exact H]. }
      destruct (negb (isCommentText p)); [discriminate H|].
      apply (Hstep _ H). other_state.
Qed.

(** X14: in an accepted value a character that is neither whitespace nor
    visible nor obs-text (a control character, DEL, a code unit from
    0x100 up) can stand only directly after a token character: never
    first, never after whitespace or a delimiter, never twice in a row,
    and never inside a quoted string or comment other than right after a
    token character. *)
Theorem X14_stray_character_position
    (before after : list char16_t) (c : char16_t) :
  isValidValue (before ++ c :: after) = Ok true ->
  isQuotedPairSecondOctet c = false ->
  exists before' t,
    before = before' ++ [t] /\ isTokenCharacter t = true.
Proof.
  rewrite isValidValue_scan. intros [= H] Hc.
  destruct (scan_stray_after_token before initial c after Hc H)
    as [[_ Hs]|Hex]; [discriminate Hs | exact Hex].
Qed.

Lemma X14_stray_character_position_witness :
  exists before' t,
    str "ab" = before' ++ [t] /\ isTokenCharacter t = true.
Proof.
  apply (X14_stray_character_position (str "ab") (str " c") 0x0A);
    reflexivity.
Defined.

(** ** Bounds on the index and the counter *)

(** X15: in every configuration the run reaches, the index is at most
    the length of the value and [commentDepth] lies between zero and the
    number of characters passed; so incrementing the counter at the next
    character never wraps. *)
Theorem X15_index_and_depth_bounded (value : list char16_t) i l :
  Z.of_nat (length value) < SIZE_MOD ->
  reachable value i l ->
  (i <= length value)%nat
  /\ 0 <= commentDepth l <= Z.of_nat i
  /\ ((i < length value)%nat ->
      wrap_size_t (commentDepth l + 1) = commentDepth l + 1).
Proof.
  intros Hlen Hr.
  pose proof (reachable_index _ _ _ Hr) as Hi.
  destruct (depth_tracks_state_reachable _ _ _ Hlen Hr) as [_ Hrange].
  split; [exact Hi|]. split; [exact Hrange|].
  intros Hlt. apply wrap_size_t_small. lia.
Qed.

Lemma X15_index_and_depth_bounded_witness :
  let l := {| state := Comment; commentDepth := 1; hadNonWhitespace := true |} in
  (1 <= length (str "(("))%nat
  /\ 0 <= commentDepth l <= Z.of_nat 1
  /\ ((1 < length (str "(("))%nat ->
      wrap_size_t (commentDepth l + 1) = commentDepth l + 1).
Proof.
  apply (X15_index_and_depth_bounded (str "((") 1%nat).
  - reflexivity.
  - apply (reachable_continue _ 0%nat initial 0%nat);
      [ apply reachable_initial | simpl; lia | reflexivity ].
Defined.
